(** * The virtual file system of xenia: path resolution, file open, extraction

    A shallow embedding of [src/xenia/vfs/virtual_file_system.cc] and the
    properties of its device registry, symbolic-link table, path resolver,
    path creation, open-disposition state machine and extraction walker. *)

From Stdlib Require Import ZArith NArith Bool List Ascii String Lia.
From Stdlib Require Import Permutation.
Import ListNotations.

Local Open Scope string_scope.
Local Open Scope Z_scope.

(* ================================================================== *)
(** ** String utilities ([xe::utf8]) *)
(* ================================================================== *)

(** Modelled from the spec: the string helpers of [xenia/base/utf8.h]
    ([starts_with], [starts_with_case], [equal_case]) are used by the file
    system but their file is not part of the sources at hand.  The spec calls
    them a "literal prefix" test, a "case-insensitive" prefix test and a
    case-insensitive equality.  Strings are byte strings; case is folded on
    the ASCII letters only. *)
Module utf8.

Definition lower_ascii (c : ascii) : ascii :=
  let n := N_of_ascii c in
  if ((65 <=? n) && (n <=? 90))%N then ascii_of_N (n + 32) else c.

Definition equal_ascii_case (l r : ascii) : bool :=
  Ascii.eqb l r || Ascii.eqb (lower_ascii l) (lower_ascii r).

(** [starts_with haystack needle]: [needle] is a literal prefix. *)
Fixpoint starts_with (haystack needle : string) {struct needle} : bool :=
  match needle with
  | EmptyString => true
  | String c needle' =>
      match haystack with
      | EmptyString => false
      | String d haystack' => Ascii.eqb d c && starts_with haystack' needle'
      end
  end.

(** [starts_with_case haystack needle]: prefix up to ASCII case. *)
Fixpoint starts_with_case (haystack needle : string) {struct needle}
  : bool :=
  match needle with
  | EmptyString => true
  | String c needle' =>
      match haystack with
      | EmptyString => false
      | String d haystack' =>
          equal_ascii_case d c && starts_with_case haystack' needle'
      end
  end.

Fixpoint equal_case (l r : string) : bool :=
  match l, r with
  | EmptyString, EmptyString => true
  | String a l', String b r' => equal_ascii_case a b && equal_case l' r'
  | _, _ => false
  end.

End utf8.

(** [std::string::substr(pos)]: the suffix from byte [pos] on.  The standard
    library throws when [pos] exceeds the size; every call below passes the
    size of a prefix that was just matched (see [starts_with_case_length] and
    [starts_with_length]), so that case is never reached and the model returns
    the empty string there. *)
Fixpoint substr (s : string) (pos : nat) : string :=
  match pos, s with
  | O, _ => s
  | S p, String _ s' => substr s' p
  | S _, EmptyString => EmptyString
  end.

(* ================================================================== *)
(** ** Symbolic-link table *)
(* ================================================================== *)

(** [symlinks_] is only ever read front to back ([cbegin] .. [cend]); it is
    modelled as the list of its (source, target) pairs in iteration order. *)
Definition SymlinkTable := list (string * string).

(** The [std::find_if] of [FindSymbolicLink] and [ResolveSymbolicLink]. *)
Definition find_symlink (symlinks_ : SymlinkTable) (path : string)
  : option (string * string) :=
  find (fun s => utf8.starts_with_case path (fst s)) symlinks_.

Definition FindSymbolicLink (symlinks_ : SymlinkTable) (path : string)
  : option string :=
  match find_symlink symlinks_ path with
  | None => None
  | Some it => Some (snd it)
  end.

(** The position [std::find_if] stops at, counted from [begin()]. *)
Fixpoint find_if_index {A : Type} (f : A -> bool) (l : list A) : option nat :=
  match l with
  | [] => None
  | x :: l' =>
      if f x then Some O
      else match find_if_index f l' with
           | None => None
           | Some i => Some (S i)
           end
  end.

(** [erase(it)]: the element at the position goes, the others keep their
    order. *)
Definition erase_at {A : Type} (i : nat) (l : list A) : list A :=
  (firstn i l ++ skipn (S i) l)%list.

(** [UnregisterSymbolicLink(path)]: the answer and the table left. *)
Definition UnregisterSymbolicLink (symlinks_ : SymlinkTable) (path : string)
  : bool * SymlinkTable :=
  match find_if_index (fun s => utf8.equal_case path (fst s)) symlinks_ with
  | None => (false, symlinks_)
  | Some it => (true, erase_at it symlinks_)
  end.

(** The [while (true)] loop of [ResolveSymbolicLink].  The loop has no cycle
    guard, so it is run on fuel: [None] means the fuel ran out. *)
Fixpoint ResolveSymbolicLink_loop (fuel : nat) (symlinks_ : SymlinkTable)
         (result : string) (was_resolved : bool) : option (bool * string) :=
  match fuel with
  | O => None
  | S fuel' =>
      match find_symlink symlinks_ result with
      | None => Some (was_resolved, result)
      | Some it =>
          let target_path := snd it in
          let relative_path := substr result (String.length (fst it)) in
          ResolveSymbolicLink_loop fuel' symlinks_
                                   (target_path ++ relative_path) true
      end
  end.

(** [ResolveSymbolicLink(path, result)]: the returned pair is
    ([was_resolved], [result]). *)
Definition ResolveSymbolicLink (fuel : nat) (symlinks_ : SymlinkTable)
           (path : string) : option (bool * string) :=
  ResolveSymbolicLink_loop fuel symlinks_ path false.

(** The spec's words for one rewrite: the first entry whose source prefix
    matches, its target in place of the matched prefix, the suffix kept. *)
Definition rewrite_once (symlinks_ : SymlinkTable) (path : string)
  : option string :=
  match find_symlink symlinks_ path with
  | None => None
  | Some (source, target) => Some (target ++ substr path (String.length source))
  end.

(** [rewrites t n p r]: [r] is reached from [p] by exactly [n] rewrites. *)
Inductive rewrites (symlinks_ : SymlinkTable) : nat -> string -> string -> Prop :=
| rewrites_done : forall p, rewrites symlinks_ 0 p p
| rewrites_step : forall n p q r,
    rewrite_once symlinks_ p = Some q ->
    rewrites symlinks_ n q r ->
    rewrites symlinks_ (S n) p r.

(** Two prefixes overlap when one of them starts with the other, up to case:
    then some path under one is also matched by the other. *)
Definition overlap (a b : string) : bool :=
  utf8.starts_with_case a b || utf8.starts_with_case b a.

(** A chain A -> B, B -> C without a cycle: no target brings back a source
    that comes before it. *)
Definition acyclic_chain (A B C : string) : bool :=
  negb (overlap A B) && negb (overlap A C) && negb (overlap B C).

(** A table in which the target of every link is itself under the source of
    some link: every rewrite leaves a path that matches again. *)
Definition every_target_matched (symlinks_ : SymlinkTable) : bool :=
  forallb (fun link =>
             existsb (fun s => utf8.starts_with_case (snd link) (fst s))
                     symlinks_)
          symlinks_.

(* ================================================================== *)
(** ** Status codes, access rights, dispositions, actions, attributes *)
(* ================================================================== *)

(** Modelled from the spec: the constants of [xenia/xbox.h] and
    [xenia/vfs/entry.h] are referred to by name in the code but their headers
    are not part of the sources at hand.  The spec names the error kinds
    (NoSuchFile, NameCollision, IsADirectory, AccessDenied), the six
    dispositions, the six actions and the generic/data access flags; the
    numbers are those of the NT status codes and access masks the names stand
    for.  [X_STATUS] and the masks are 32-bit unsigned numbers. *)
Definition X_STATUS := Z.

Definition X_STATUS_SUCCESS : X_STATUS := 0x00000000.
Definition X_STATUS_NO_SUCH_FILE : X_STATUS := 0xC000000F.
Definition X_STATUS_ACCESS_DENIED : X_STATUS := 0xC0000022.
Definition X_STATUS_OBJECT_NAME_COLLISION : X_STATUS := 0xC0000035.
Definition X_STATUS_FILE_IS_A_DIRECTORY : X_STATUS := 0xC00000BA.

Definition XSUCCEEDED (s : X_STATUS) : bool := Z.land s 0xC0000000 =? 0.
Definition XFAILED (s : X_STATUS) : bool := negb (XSUCCEEDED s).

Module FileAccess.
Definition kGenericRead : Z := 0x80000000.
Definition kGenericWrite : Z := 0x40000000.
Definition kGenericExecute : Z := 0x20000000.
Definition kGenericAll : Z := 0x10000000.
Definition kFileReadData : Z := 0x00000001.
Definition kFileWriteData : Z := 0x00000002.
Definition kFileAppendData : Z := 0x00000004.
End FileAccess.

Inductive FileDisposition : Set :=
| kSuperscede | kOpen | kCreate | kOpenIf | kOverwrite | kOverwriteIf.

Inductive FileAction : Set :=
| kSuperseded | kOpened | kCreated | kOverwritten | kExists | kDoesNotExist.

Definition kFileAttributeDirectory : Z := 0x0010.
Definition kFileAttributeNormal : Z := 0x0080.

(** A C++ integer used as a condition. *)
Definition truthy (x : Z) : bool := negb (x =? 0).

(* ================================================================== *)
(** ** The collaborators: entries, devices, guest paths *)
(* ================================================================== *)

(** [Entry] and [Device] are abstract classes whose concrete kinds live
    outside this file.  An [Entry*] is a handle of type [Entry]; everything a
    handle leads to (the entry trees of all devices and the host store behind
    them) is the [World], which the mutating methods pass along. *)
Record EntryModel (Entry World File : Type) := {
  (** [entry->name()] *)
  name : World -> Entry -> string;
  (** [entry->attributes()] *)
  attributes : World -> Entry -> Z;
  (** [entry->is_read_only()] *)
  is_read_only : World -> Entry -> bool;
  (** [entry->parent()] *)
  parent : World -> Entry -> option Entry;
  (** [entry->GetChild(name)] *)
  GetChild : World -> Entry -> string -> option Entry;
  (** [entry->ResolvePath(path)] *)
  EntryResolvePath : World -> Entry -> string -> option Entry;
  (** [parent->CreateEntry(name, attributes)] *)
  CreateEntry : Entry -> string -> Z -> World -> option Entry * World;
  (** [entry->Delete()] *)
  Delete : Entry -> World -> bool * World;
  (** [parent->Delete(entry)] *)
  DeleteChild : Entry -> Entry -> World -> bool * World;
  (** [entry->Open(desired_access, out_file)] *)
  Open : Entry -> Z -> World -> X_STATUS * option File * World;
  (** [dynamic_cast<const HostPathEntry*>(parent_entry)] followed by
      [std::filesystem::exists(host_path() / name)]: [None] when the parent
      is not a host path entry, else whether the host has the object. *)
  host_exists : World -> Entry -> string -> option bool
}.

Arguments name {Entry World File}.
Arguments attributes {Entry World File}.
Arguments is_read_only {Entry World File}.
Arguments parent {Entry World File}.
Arguments GetChild {Entry World File}.
Arguments EntryResolvePath {Entry World File}.
Arguments CreateEntry {Entry World File}.
Arguments Delete {Entry World File}.
Arguments DeleteChild {Entry World File}.
Arguments Open {Entry World File}.
Arguments host_exists {Entry World File}.

(** The guest-path helpers of [xe::utf8], pure string functions whose file is
    not part of the sources at hand; they are taken as given. *)
Record GuestPath := {
  canonicalize_guest_path : string -> string;
  split_path : string -> list string;
  join_guest_paths : string -> string -> string;
  find_base_guest_path : string -> string;
  find_name_from_guest_path : string -> string
}.

(** A mounted device: its mount path and its own resolver. *)
Record Device (Entry World : Type) := {
  mount_path : string;
  DeviceResolvePath : World -> string -> option Entry
}.

Arguments mount_path {Entry World}.
Arguments DeviceResolvePath {Entry World}.

Record VirtualFileSystem (Entry World : Type) := {
  devices_ : list (Device Entry World);
  symlinks_ : SymlinkTable
}.

Arguments devices_ {Entry World}.
Arguments symlinks_ {Entry World}.

(** What [OpenFile] leaves behind: the returned status, the values written
    through [out_file] and [out_action] ([None]: never written, the caller's
    variable keeps what it held) and the world. *)
Record OpenResult (File World : Type) := {
  status : X_STATUS;
  out_file : option File;
  out_action : option FileAction;
  world : World
}.

Arguments status {File World}.
Arguments out_file {File World}.
Arguments out_action {File World}.
Arguments world {File World}.

(** The state of [OpenFile] after the lookup of lines 205-245: an early
    return, or the two pointers and the world. *)
Inductive Lookup (Entry World : Type) :=
| LookupReturn (s : X_STATUS) (action : option FileAction) (w : World)
| LookupDone (parent_entry entry : option Entry) (w : World).

Arguments LookupReturn {Entry World}.
Arguments LookupDone {Entry World}.

(** Fuel running out inside a call is passed up: [None] is "did not return
    within the fuel", never a result of the program. *)
Definition bind {A B : Type} (m : option A) (k : A -> option B) : option B :=
  match m with
  | None => None
  | Some a => k a
  end.

Notation "x <- m ;; k" := (bind m (fun x => k))
  (at level 61, m at next level, right associativity).

(* ================================================================== *)
(** ** The virtual file system *)
(* ================================================================== *)

Section VFS.

Context {Entry World File : Type}.
Variable E : EntryModel Entry World File.
Variable G : GuestPath.

Local Abbreviation Dev := (Device Entry World).
Local Abbreviation Vfs := (VirtualFileSystem Entry World).

(** [Clear()]: both containers are emptied. *)
Definition Clear (vfs : Vfs) : Vfs :=
  {| devices_ := []; symlinks_ := [] |}.

(** [RegisterDevice]: [devices_.emplace_back], always [true]. *)
Definition RegisterDevice (vfs : Vfs) (device : Dev) : bool * Vfs :=
  (true, {| devices_ := devices_ vfs ++ [device];
            symlinks_ := symlinks_ vfs |}).

(** The loop of [UnregisterDevice] over [devices_]: the first device whose
    [mount_path() == path] is erased. *)
Fixpoint UnregisterDevice_loop (devices : list Dev) (path : string)
  : bool * list Dev :=
  match devices with
  | [] => (false, [])
  | it :: rest =>
      if String.eqb (mount_path it) path then (true, rest)
      else let (found, rest') := UnregisterDevice_loop rest path in
           (found, it :: rest')
  end.

Definition UnregisterDevice (vfs : Vfs) (path : string) : bool * Vfs :=
  let (found, devices) := UnregisterDevice_loop (devices_ vfs) path in
  (found, {| devices_ := devices; symlinks_ := symlinks_ vfs |}).

(** The [std::find_if] of [ResolvePath] over [devices_]. *)
Definition find_device (devices : list Dev) (normalized_path : string)
  : option Dev :=
  find (fun d => utf8.starts_with normalized_path (mount_path d)) devices.

(** [ResolvePath(path)]: [Some None] is the null result. *)
Definition ResolvePath (fuel : nat) (vfs : Vfs) (w : World) (path : string)
  : option (option Entry) :=
  let normalized_path := canonicalize_guest_path G path in
  r <- ResolveSymbolicLink fuel (symlinks_ vfs) normalized_path ;;
  let normalized_path := if fst r then snd r else normalized_path in
  match find_device (devices_ vfs) normalized_path with
  | None => Some None
  | Some device =>
      let relative_path :=
        substr normalized_path (String.length (mount_path device)) in
      Some (DeviceResolvePath device w relative_path)
  end.

(** The [for] loop of [CreatePath]: [count] iterations are left, [i] is the
    index.  The result is the last [parent_entry], or null on the early
    return. *)
Fixpoint CreatePath_loop (fuel : nat) (vfs : Vfs) (path_parts : list string)
         (count i : nat) (partial_path : string) (parent_entry : Entry)
         (w : World) : option (option Entry * World) :=
  match count with
  | O => Some (Some parent_entry, w)
  | S count' =>
      let partial_path :=
        join_guest_paths G partial_path (nth i path_parts "") in
      child_entry <- ResolvePath fuel vfs w partial_path ;;
      let '(child_entry, w) :=
        match child_entry with
        | Some c => (Some c, w)
        | None => CreateEntry E parent_entry (nth i path_parts "")
                              kFileAttributeDirectory w
        end in
      match child_entry with
      | None => Some (None, w)
      | Some c =>
          CreatePath_loop fuel vfs path_parts count' (S i) partial_path c w
      end
  end.

(** [CreatePath(path, attributes)].  [i] runs from 1 while
    [i < path_parts.size() - 1]. *)
Definition CreatePath (fuel : nat) (vfs : Vfs) (path : string)
           (attrs : Z) (w : World) : option (option Entry * World) :=
  let path_parts := split_path G path in
  match path_parts with
  | [] => Some (None, w)
  | _ =>
      let partial_path := nth 0 path_parts "" in
      partial_entry <- ResolvePath fuel vfs w partial_path ;;
      match partial_entry with
      | None => Some (None, w)
      | Some partial_entry =>
          r <- CreatePath_loop fuel vfs path_parts
                 (List.length path_parts - 1 - 1) 1 partial_path
                 partial_entry w ;;
          match r with
          | (None, w) => Some (None, w)
          | (Some parent_entry, w) =>
              Some (CreateEntry E parent_entry
                      (nth (List.length path_parts - 1) path_parts "")
                      attrs w)
          end
      end
  end.

(** [DeletePath(path)]. *)
Definition DeletePath (fuel : nat) (vfs : Vfs) (path : string) (w : World)
  : option (bool * World) :=
  entry <- ResolvePath fuel vfs w path ;;
  match entry with
  | None => Some (false, w)
  | Some entry =>
      match parent E w entry with
      | None => Some (false, w)
      | Some p => Some (DeleteChild E p entry w)
      end
  end.

(** Lines 194-203 of [OpenFile]: "Cleanup access". *)
Definition cleanup_access (desired_access : Z) : Z :=
  let desired_access :=
    if truthy (Z.land desired_access FileAccess.kGenericRead)
    then Z.lor desired_access FileAccess.kFileReadData
    else desired_access in
  let desired_access :=
    if truthy (Z.land desired_access FileAccess.kGenericWrite)
    then Z.lor desired_access FileAccess.kFileWriteData
    else desired_access in
  if truthy (Z.land desired_access FileAccess.kGenericAll)
  then Z.lor desired_access
             (Z.lor FileAccess.kFileReadData FileAccess.kFileWriteData)
  else desired_access.

(** Lines 205-223 of [OpenFile]: the lookup of the parent and the entry.
    [inl] is the early return when the parent does not resolve. *)
Definition OpenFile_find (fuel : nat) (vfs : Vfs) (root_entry : option Entry)
           (path : string)
  (w : World) : option (X_STATUS * FileAction + option Entry * option Entry) :=
  let base_path := find_base_guest_path G path in
  if negb (String.eqb base_path "") then
    parent_entry <-
      match root_entry with
      | None => ResolvePath fuel vfs w base_path
      | Some root => Some (EntryResolvePath E w root base_path)
      end ;;
    match parent_entry with
    | None => Some (inl (X_STATUS_NO_SUCH_FILE, kDoesNotExist))
    | Some p =>
        let file_name := find_name_from_guest_path G path in
        Some (inr (Some p, GetChild E w p file_name))
    end
  else
    entry <-
      match root_entry with
      | None => ResolvePath fuel vfs w path
      | Some root => Some (GetChild E w root path)
      end ;;
    Some (inr (None, entry)).

(** Lines 225-245: the type check against [is_non_directory] and the removal
    of a cached entry the host no longer has. *)
Definition OpenFile_check (parent_entry : option Entry) (entry : Entry)
           (is_non_directory : bool) (w : World) : Lookup Entry World :=
  if truthy (Z.land (attributes E w entry) kFileAttributeDirectory)
     && is_non_directory
  then LookupReturn X_STATUS_FILE_IS_A_DIRECTORY None w
  else
    match parent_entry with
    | None => LookupDone None (Some entry) w
    | Some p =>
        match host_exists E w p (name E w entry) with
        | Some false =>
            let (_, w) := Delete E entry w in
            LookupDone parent_entry None w
        | _ => LookupDone parent_entry (Some entry) w
        end
    end.

(** Lines 205-245 together. *)
Definition OpenFile_lookup (fuel : nat) (vfs : Vfs)
           (root_entry : option Entry) (path : string)
           (is_non_directory : bool) (w : World)
  : option (Lookup Entry World) :=
  found <- OpenFile_find fuel vfs root_entry path w ;;
  match found with
  | inl (s, a) => Some (LookupReturn s (Some a) w)
  | inr (parent_entry, None) => Some (LookupDone parent_entry None w)
  | inr (parent_entry, Some entry) =>
      Some (OpenFile_check parent_entry entry is_non_directory w)
  end.

(** Lines 247-267: "Check if exists (if we need it to), or that it doesn't
    (if it shouldn't)".  [Some] is the early return. *)
Definition check_exists (creation_disposition : FileDisposition)
           (entry : option Entry) : option (X_STATUS * FileAction) :=
  match creation_disposition with
  | kOpen | kOverwrite =>
      match entry with
      | None => Some (X_STATUS_NO_SUCH_FILE, kDoesNotExist)
      | Some _ => None
      end
  | kCreate =>
      match entry with
      | Some _ => Some (X_STATUS_OBJECT_NAME_COLLISION, kExists)
      | None => None
      end
  | _ => None
  end.

(** Lines 269-281: "Verify permissions".  No return; the access may be
    replaced.  ([assert_always] is compiled out of release builds.) *)
Definition wants_write (desired_access : Z) : bool :=
  truthy (Z.land desired_access FileAccess.kFileWriteData)
  || truthy (Z.land desired_access FileAccess.kFileAppendData).

Definition is_read_only_opt (w : World) (e : option Entry) : bool :=
  match e with
  | None => false
  | Some e => is_read_only E w e
  end.

Definition read_only_access : Z :=
  Z.lor FileAccess.kGenericRead FileAccess.kFileReadData.

Definition verify_permissions (w : World) (parent_entry entry : option Entry)
           (desired_access : Z) : Z :=
  if wants_write desired_access
     && (is_read_only_opt w parent_entry || is_read_only_opt w entry)
  then read_only_access
  else desired_access.

(** Lines 283-318: the action for the state of the entry.  [inl] is an
    early return (nothing is written to [out_action] on it); [inr] carries
    the entry pointer, the action written and the world. *)
Definition replace_entry (creation_disposition : FileDisposition)
           (entry : option Entry) (w : World)
  : (X_STATUS * World) + (option Entry * FileAction * World) :=
  match entry with
  | None => inr (None, kCreated, w)
  | Some e =>
      match creation_disposition with
      | kCreate => inl (X_STATUS_ACCESS_DENIED, w)
      | kSuperscede =>
          let (deleted, w) := Delete E e w in
          if negb deleted then inl (X_STATUS_ACCESS_DENIED, w)
          else inr (None, kSuperseded, w)
      | kOpen | kOpenIf => inr (Some e, kOpened, w)
      | kOverwrite | kOverwriteIf =>
          let (deleted, w) := Delete E e w in
          if negb deleted then inl (X_STATUS_ACCESS_DENIED, w)
          else inr (None, kOverwritten, w)
      end
  end.

(** The actions lines 283-318 can write, by disposition and existence. *)
Definition action_fits (disposition : FileDisposition) (entry : option Entry)
           (action : FileAction) : Prop :=
  match action with
  | kOpened => (disposition = kOpen \/ disposition = kOpenIf) /\ entry <> None
  | kCreated =>
      disposition <> kOpen /\ disposition <> kOverwrite /\ entry = None
  | kOverwritten =>
      (disposition = kOverwrite \/ disposition = kOverwriteIf)
      /\ entry <> None
  | kSuperseded => disposition = kSuperscede /\ entry <> None
  | kExists | kDoesNotExist => False
  end.

(** Lines 328-333: "Open". *)
Definition open_entry (entry : Entry) (desired_access : Z)
           (action : FileAction) (w : World) : OpenResult File World :=
  let '(result, file, w) := Open E entry desired_access w in
  {| status := result;
     out_file := file;
     out_action := Some (if XFAILED result then kDoesNotExist else action);
     world := w |}.

(** The attributes [OpenFile] passes to [CreatePath] (line 322). *)
Definition create_attributes (is_directory : bool) : Z :=
  if negb is_directory then kFileAttributeNormal else kFileAttributeDirectory.

(** Lines 247-333 of [OpenFile], from the two pointers on. *)
Definition OpenFile_dispose (fuel : nat) (vfs : Vfs) (path : string)
           (creation_disposition : FileDisposition) (desired_access : Z)
           (is_directory : bool) (parent_entry entry : option Entry)
           (w : World) : option (OpenResult File World) :=
  match check_exists creation_disposition entry with
  | Some (s, a) =>
      Some {| status := s; out_file := None; out_action := Some a;
              world := w |}
  | None =>
      let desired_access :=
        verify_permissions w parent_entry entry desired_access in
      match replace_entry creation_disposition entry w with
      | inl (s, w) =>
          Some {| status := s; out_file := None; out_action := None;
                  world := w |}
      | inr (Some e, action, w) =>
          Some (open_entry e desired_access action w)
      | inr (None, action, w) =>
          created <- CreatePath fuel vfs path
                       (create_attributes is_directory) w ;;
          match created with
          | (None, w) =>
              Some {| status := X_STATUS_ACCESS_DENIED; out_file := None;
                      out_action := Some action; world := w |}
          | (Some e, w) => Some (open_entry e desired_access action w)
          end
      end
  end.

(** [OpenFile(root_entry, path, creation_disposition, desired_access,
    is_directory, is_non_directory, out_file, out_action)]. *)
Definition OpenFile (fuel : nat) (vfs : Vfs) (root_entry : option Entry)
           (path : string) (creation_disposition : FileDisposition)
           (desired_access : Z) (is_directory is_non_directory : bool)
           (w : World) : option (OpenResult File World) :=
  let desired_access := cleanup_access desired_access in
  looked <- OpenFile_lookup fuel vfs root_entry path is_non_directory w ;;
  match looked with
  | LookupReturn s a w =>
      Some {| status := s; out_file := None; out_action := a; world := w |}
  | LookupDone parent_entry entry w =>
      OpenFile_dispose fuel vfs path creation_disposition desired_access
                       is_directory parent_entry entry w
  end.

(** The spec's words for [CreatePath], over the segments: the middle
    segments are resolved along the growing path and created as
    directories where they do not resolve. *)
Fixpoint create_middle (fuel : nat) (vfs : Vfs) (middle : list string)
         (partial_path : string) (parent_entry : Entry) (w : World)
  : option (option Entry * World) :=
  match middle with
  | [] => Some (Some parent_entry, w)
  | segment :: middle' =>
      let partial_path := join_guest_paths G partial_path segment in
      resolved <- ResolvePath fuel vfs w partial_path ;;
      match resolved with
      | Some child => create_middle fuel vfs middle' partial_path child w
      | None =>
          match CreateEntry E parent_entry segment kFileAttributeDirectory w
          with
          | (None, w) => Some (None, w)
          | (Some child, w) =>
              create_middle fuel vfs middle' partial_path child w
          end
      end
  end.

Definition CreatePath_spec (fuel : nat) (vfs : Vfs) (path : string)
           (attrs : Z) (w : World) : option (option Entry * World) :=
  match split_path G path with
  | [] => Some (None, w)
  | first :: rest =>
      root <- ResolvePath fuel vfs w first ;;
      match root with
      | None => Some (None, w)
      | Some root =>
          r <- create_middle fuel vfs (removelast rest) first root w ;;
          match r with
          | (None, w) => Some (None, w)
          | (Some parent_entry, w) =>
              Some (CreateEntry E parent_entry (last rest first) attrs w)
          end
      end
  end.

End VFS.

(* ================================================================== *)
(** ** The extraction walker *)
(* ================================================================== *)

Module Extract.

(** The walker only reads the device's entry tree, so the tree is taken as
    a value: each node carries what the walker asks of it. *)
#[warnings="-register-all"] Inductive Entry : Type :=
  mkEntry (name path : string) (attributes : Z) (size : Z)
          (open_status : X_STATUS) (can_map : bool) (map_size : Z)
          (children : list Entry).

Definition name (e : Entry) : string :=
  let '(mkEntry n _ _ _ _ _ _ _) := e in n.
Definition path (e : Entry) : string :=
  let '(mkEntry _ p _ _ _ _ _ _) := e in p.
Definition attributes (e : Entry) : Z :=
  let '(mkEntry _ _ a _ _ _ _ _) := e in a.
(** [entry->size()] *)
Definition size (e : Entry) : Z :=
  let '(mkEntry _ _ _ s _ _ _ _) := e in s.
(** The status of [entry->Open(FileAccess::kFileReadData, &in_file)]. *)
Definition open_status (e : Entry) : X_STATUS :=
  let '(mkEntry _ _ _ _ o _ _ _) := e in o.
Definition can_map (e : Entry) : bool :=
  let '(mkEntry _ _ _ _ _ c _ _) := e in c.
(** [entry->OpenMapped(kRead)->size()] *)
Definition map_size (e : Entry) : Z :=
  let '(mkEntry _ _ _ _ _ _ m _) := e in m.
Definition children (e : Entry) : list Entry :=
  let '(mkEntry _ _ _ _ _ _ _ c) := e in c.

(** The calls made on the host store, in order. *)
Inductive HostCall : Type :=
| CreateDirectories (dest_name : string)
| OpenWb (dest_name : string)
| FwriteMapped (dest_name : string) (offset : Z) (nbytes : Z)
| Fwrite (dest_name : string) (nbytes : Z)
| Fclose (dest_name : string).

Definition Trace := list HostCall.

(** The number of bytes handed to [fwrite] ([size * count]). *)
Definition bytes_of (c : HostCall) : Z :=
  match c with
  | FwriteMapped _ _ n => n
  | Fwrite _ n => n
  | _ => 0
  end.

Definition bytes_written (t : Trace) : Z :=
  fold_right (fun c acc => bytes_of c + acc) 0 t.

(** What the surroundings answer, given the calls made so far. *)
Record Host := {
  (** [base_path / xe::to_path(utf8::fix_path_separators(entry->path()))] *)
  dest_of_path : string -> string -> string;
  (** [base_path / xe::to_path(entry->name())] *)
  dest_of_name : string -> string -> string;
  (** [error_code.value()] after [std::filesystem::create_directories] *)
  create_directories : Trace -> string -> Z;
  (** whether [xe::filesystem::OpenFile(dest_name, "wb")] is non-null *)
  open_wb : Trace -> string -> bool;
  (** [bytes_read] after [in_file->ReadSync(buffer span, offset, ...)] *)
  ReadSync : Entry -> Z -> Z -> Z
}.

(** [4_MiB] *)
Definition write_buffer_size : Z := 4 * 1024 * 1024.

(** [size_t] and [uint64_t] arithmetic wraps at 64 bits, [int] at 32. *)
Definition u64 (z : Z) : Z := z mod 2 ^ 64.
Definition i32 (z : Z) : Z := (z + 2 ^ 31) mod 2 ^ 32 - 2 ^ 31.

Section Walker.

Variable H : Host.

(** Lines 381-385: the copy out of the mapped view.  [fwrite] is given
    [write_buffer_size] bytes at each turn, whatever remains. *)
Fixpoint copy_mapped (fuel : nat) (dest_name : string)
         (remaining_size offset : Z) (t : Trace) : option Trace :=
  match fuel with
  | O => None
  | S fuel' =>
      if remaining_size >? 0 then
        copy_mapped fuel' dest_name
                    (u64 (remaining_size - write_buffer_size))
                    (i32 (offset + write_buffer_size))
                    (t ++ [FwriteMapped dest_name offset write_buffer_size])%list
      else Some t
  end.

(** Lines 392-400: the copy through [ReadSync]. *)
Fixpoint copy_sync (fuel : nat) (entry : Entry) (dest_name : string)
         (remaining_size offset progress : Z) (t : Trace)
  : option (Z * Trace) :=
  match fuel with
  | O => None
  | S fuel' =>
      if remaining_size >? 0 then
        let bytes_read := ReadSync H entry offset write_buffer_size in
        copy_sync fuel' entry dest_name
                  (u64 (remaining_size - bytes_read))
                  (u64 (offset + bytes_read))
                  (u64 (progress + bytes_read))
                  (t ++ [Fwrite dest_name bytes_read])%list
      else Some (progress, t)
  end.

(** [ExtractContentFile(entry, base_path, progress, extract_to_root)]:
    the status, the progress counter and the host calls. *)
Definition ExtractContentFile (fuel : nat) (entry : Entry)
           (base_path : string) (progress : Z) (extract_to_root : bool)
           (t : Trace) : option (X_STATUS * Z * Trace) :=
  let dest_name := dest_of_path H base_path (path entry) in
  let dest_name :=
    if extract_to_root then dest_of_name H base_path (name entry)
    else dest_name in
  if truthy (Z.land (attributes entry) kFileAttributeDirectory) then
    let error_code := create_directories H t dest_name in
    let t := (t ++ [CreateDirectories dest_name])%list in
    if truthy error_code then Some (error_code, progress, t)
    else Some (0, progress, t)
  else
    let result := open_status entry in
    if negb (result =? X_STATUS_SUCCESS) then Some (result, progress, t)
    else
      let file := open_wb H t dest_name in
      let t := (t ++ [OpenWb dest_name])%list in
      if negb file then Some (1, progress, t)
      else if can_map entry then
        t <- copy_mapped fuel dest_name (map_size entry) 0 t ;;
        Some (0, progress, (t ++ [Fclose dest_name])%list)
      else
        r <- copy_sync fuel entry dest_name (size entry) 0 progress t ;;
        let (progress, t) := r in
        Some (0, progress, (t ++ [Fclose dest_name])%list).


(** The [while (!queue.empty())] loop of [ExtractContentFiles].  The
    status of each [ExtractContentFile] call is dropped by the code; the
    model keeps the visited entries with those statuses as a ghost list
    ([seen]), which no branch reads. *)
Fixpoint ExtractContentFiles_loop (fuel inner : nat) (queue : list Entry)
         (base_path : string) (progress : Z) (t : Trace)
         (seen : list (Entry * X_STATUS))
  : option (X_STATUS * Z * Trace * list (Entry * X_STATUS)) :=
  match fuel with
  | O => None
  | S fuel' =>
      match queue with
      | [] => Some (X_STATUS_SUCCESS, progress, t, seen)
      | entry :: queue =>
          let queue := (queue ++ children entry)%list in
          r <- ExtractContentFile inner entry base_path progress false t ;;
          let '(s, progress, t) := r in
          ExtractContentFiles_loop fuel' inner queue base_path progress t
                                   (seen ++ [(entry, s)])%list
      end
  end.

(** [ExtractContentFiles(device, base_path, progress)]; [root] is
    [device->ResolvePath("/")], and [extract_to_root] takes the value the
    three-argument call leaves to its default, [false]. *)
Definition ExtractContentFiles (fuel inner : nat) (root : Entry)
           (base_path : string) (progress : Z) (t : Trace)
  : option (X_STATUS * Z * Trace * list (Entry * X_STATUS)) :=
  ExtractContentFiles_loop fuel inner [root] base_path progress t [].

End Walker.

(** All entries of a tree, and of a queue of trees. *)
Fixpoint nodes (e : Entry) : list Entry :=
  let '(mkEntry _ _ _ _ _ _ _ cs) := e in
  e :: (fix nodes_list (l : list Entry) : list Entry :=
          match l with
          | [] => []
          | c :: l' => (nodes c ++ nodes_list l')%list
          end) cs.

Definition nodes_of (queue : list Entry) : list Entry :=
  flat_map nodes queue.



(** The writes of [k] whole buffers out of a mapped view, the first of them
    being buffer number [j]: each at its own offset. *)
Definition buffers_from (dest_name : string) (j k : nat) : Trace :=
  map (fun i => FwriteMapped dest_name (Z.of_nat i * write_buffer_size)
                             write_buffer_size)
      (seq j k).

(** A write out of a mapped view of [view_size] bytes stays inside it. *)
Definition in_view (view_size : Z) (c : HostCall) : Prop :=
  match c with
  | FwriteMapped _ offset nbytes => 0 <= offset /\ offset + nbytes <= view_size
  | _ => True
  end.

(** A host store on which every call succeeds, and files that read in full. *)
Definition host : Host := {|
  dest_of_path := fun base p => base ++ "/" ++ p;
  dest_of_name := fun base n => base ++ "/" ++ n;
  create_directories := fun _ _ => 0;
  open_wb := fun _ _ => true;
  ReadSync := fun e offset len => Z.min len (Z.max 0 (size e - offset))
|}.

(** A file that cannot be opened, a mapped file of one buffer, the same file
    read through its handle, and a directory holding the first two. *)
Definition denied : Entry :=
  mkEntry "denied.bin" "denied.bin" kFileAttributeNormal 10
          X_STATUS_ACCESS_DENIED false 0 [].
Definition mapped : Entry :=
  mkEntry "mapped.bin" "mapped.bin" kFileAttributeNormal write_buffer_size
          X_STATUS_SUCCESS true write_buffer_size [].
Definition unmapped : Entry :=
  mkEntry "unmapped.bin" "unmapped.bin" kFileAttributeNormal write_buffer_size
          X_STATUS_SUCCESS false 0 [].
Definition tree : Entry :=
  mkEntry "" "" kFileAttributeDirectory 0 X_STATUS_SUCCESS false 0
          [denied; mapped].

(** A mapped file of one byte, a file of three buffers' worth read through
    its handle, and a host whose reads deliver nothing. *)
Definition odd_mapped : Entry :=
  mkEntry "odd.bin" "odd.bin" kFileAttributeNormal 1 X_STATUS_SUCCESS true 1
          [].
Definition three_chunks : Entry :=
  mkEntry "big.bin" "big.bin" kFileAttributeNormal 10000000 X_STATUS_SUCCESS
          false 0 [].
Definition silent_host : Host := {|
  dest_of_path := dest_of_path host;
  dest_of_name := dest_of_name host;
  create_directories := create_directories host;
  open_wb := open_wb host;
  ReadSync := fun _ _ _ => 0
|}.

(** A directory of two files that are read through their handles. *)
Definition plain_tree : Entry :=
  mkEntry "" "" kFileAttributeDirectory 0 X_STATUS_SUCCESS false 0
          [unmapped; three_chunks].

End Extract.

(* ================================================================== *)
(** ** An in-memory device kind *)
(* ================================================================== *)

(** Modelled from the spec: the entry and device kinds of the repository and
    its guest-path helpers are not part of the sources at hand; section 6 of
    the spec lists what an entry and a device answer.  This is one kind that
    answers it, over a table of nodes, small enough to run: the general
    statements below hold for any [EntryModel] and [GuestPath] and are
    instantiated with this one. *)
Module Mem.

(** An entry handle is the list of names from its device's root down. *)
Definition Entry := list string.

Record Node := {
  node_attributes : Z;
  node_read_only : bool;
  (** whether [Delete] is granted *)
  node_deletable : bool;
  (** the status [Open] returns *)
  node_open_status : X_STATUS;
  (** [None]: not under a host path entry; [Some b]: the host has it iff [b] *)
  node_on_host : option bool
}.

Definition World := list (Entry * Node).

(** An open file: the entry and the access it was opened with. *)
Definition File := (Entry * Z)%type.

Definition entry_eqb (a b : Entry) : bool :=
  if list_eq_dec string_dec a b then true else false.

Definition lookup (w : World) (e : Entry) : option Node :=
  match find (fun x => entry_eqb (fst x) e) w with
  | None => None
  | Some x => Some (snd x)
  end.

Definition present (w : World) (e : Entry) : option Entry :=
  match lookup w e with
  | None => None
  | Some _ => Some e
  end.

Fixpoint is_under (e x : Entry) : bool :=
  match e, x with
  | [], _ => true
  | a :: e', b :: x' => String.eqb a b && is_under e' x'
  | _ :: _, [] => false
  end.

Definition is_sep (c : ascii) : bool :=
  Ascii.eqb c "\"%char || Ascii.eqb c "/"%char.

Fixpoint split_from (s cur : string) : list string :=
  match s with
  | EmptyString => if String.eqb cur "" then [] else [cur]
  | String c s' =>
      if is_sep c
      then (if String.eqb cur "" then split_from s' ""
            else cur :: split_from s' "")
      else split_from s' (cur ++ String c "")
  end.

Definition segments (s : string) : list string := split_from s "".

Definition paths : GuestPath := {|
  canonicalize_guest_path := fun p => p;
  split_path := segments;
  join_guest_paths := fun l r => l ++ "\" ++ r;
  find_base_guest_path := fun p => String.concat "\" (removelast (segments p));
  find_name_from_guest_path := fun p => last (segments p) ""
|}.

Definition fresh (attrs : Z) : Node := {|
  node_attributes := attrs;
  node_read_only := false;
  node_deletable := true;
  node_open_status := X_STATUS_SUCCESS;
  node_on_host := None
|}.

Definition model : EntryModel Entry World File := {|
  name := fun _ e => last e "";
  attributes := fun w e =>
    match lookup w e with Some n => node_attributes n | None => 0 end;
  is_read_only := fun w e =>
    match lookup w e with Some n => node_read_only n | None => false end;
  parent := fun _ e =>
    match e with
    | [] | [_] => None
    | _ => Some (removelast e)
    end;
  GetChild := fun w p n => present w (p ++ [n])%list;
  EntryResolvePath := fun w p rel => present w (p ++ segments rel)%list;
  CreateEntry := fun p n attrs w =>
    match lookup w p, lookup w (p ++ [n])%list with
    | Some pn, None =>
        if node_read_only pn then (None, w)
        else (Some (p ++ [n])%list, (w ++ [((p ++ [n])%list, fresh attrs)])%list)
    | _, _ => (None, w)
    end;
  Delete := fun e w =>
    match lookup w e with
    | Some n =>
        if node_deletable n
        then (true, filter (fun x => negb (is_under e (fst x))) w)
        else (false, w)
    | None => (false, w)
    end;
  DeleteChild := fun _ e w =>
    match lookup w e with
    | Some n =>
        if node_deletable n
        then (true, filter (fun x => negb (is_under e (fst x))) w)
        else (false, w)
    | None => (false, w)
    end;
  Open := fun e access w =>
    match lookup w e with
    | Some n =>
        (node_open_status n,
         if XSUCCEEDED (node_open_status n) then Some (e, access) else None,
         w)
    | None => (X_STATUS_NO_SUCH_FILE, None, w)
    end;
  host_exists := fun w p n =>
    match lookup w (p ++ [n])%list with
    | Some node => node_on_host node
    | None => None
    end
|}.

(** A device mounted at [mount] whose root entry is [[root]]. *)
Definition device (mount root : string) : Device Entry World := {|
  mount_path := mount;
  DeviceResolvePath := fun w rel => present w (root :: segments rel)
|}.

Definition dir (read_only : bool) : Node := {|
  node_attributes := kFileAttributeDirectory;
  node_read_only := read_only;
  node_deletable := true;
  node_open_status := X_STATUS_SUCCESS;
  node_on_host := None
|}.

Definition file (read_only deletable : bool) (open_status : X_STATUS) : Node := {|
  node_attributes := kFileAttributeNormal;
  node_read_only := read_only;
  node_deletable := deletable;
  node_open_status := open_status;
  node_on_host := None
|}.

(** One device, "game:", with a directory and three files in it. *)
Definition vfs : VirtualFileSystem Entry World := {|
  devices_ := [device "game:" "game"];
  symlinks_ := [("d:", "game:")]
|}.

Definition world : World :=
  [ (["game"], dir false);
    (["game"; "data"], dir false);
    (["game"; "data"; "a.bin"], file false true X_STATUS_SUCCESS);
    (["game"; "data"; "locked.bin"], file false false X_STATUS_SUCCESS);
    (["game"; "data"; "broken.bin"], file false true X_STATUS_ACCESS_DENIED);
    (["game"; "data"; "ro.bin"], file true true X_STATUS_SUCCESS) ].

(** The same kind on a store with room for [limit] nodes: a creation beyond
    that is refused. *)
Definition quota_model (limit : nat) : EntryModel Entry World File := {|
  name := name model;
  attributes := attributes model;
  is_read_only := is_read_only model;
  parent := parent model;
  GetChild := GetChild model;
  EntryResolvePath := EntryResolvePath model;
  CreateEntry := fun p n attrs w =>
    if (limit <=? List.length w)%nat then (None, w)
    else CreateEntry model p n attrs w;
  Delete := Delete model;
  DeleteChild := DeleteChild model;
  Open := Open model;
  host_exists := host_exists model
|}.


End Mem.

(* ================================================================== *)
(** ** Facts about the string helpers *)
(* ================================================================== *)

Lemma equal_ascii_case_iff (l r : ascii) :
  utf8.equal_ascii_case l r = true <-> utf8.lower_ascii l = utf8.lower_ascii r.
Proof.
  unfold utf8.equal_ascii_case. rewrite orb_true_iff, !Ascii.eqb_eq.
  split; [intros [-> | ?]; auto | auto].
Qed.

Lemma equal_ascii_case_refl (c : ascii) : utf8.equal_ascii_case c c = true.
Proof. now apply equal_ascii_case_iff. Qed.

Lemma equal_ascii_case_trans (a b c : ascii) :
  utf8.equal_ascii_case a b = true -> utf8.equal_ascii_case c b = true ->
  utf8.equal_ascii_case a c = true.
Proof. rewrite !equal_ascii_case_iff. congruence. Qed.

Lemma starts_with_case_app (b t : string) :
  utf8.starts_with_case (b ++ t) b = true.
Proof.
  induction b as [| c b IH]; simpl; [reflexivity |].
  now rewrite equal_ascii_case_refl, IH.
Qed.

Lemma starts_with_app (b t : string) : utf8.starts_with (b ++ t) b = true.
Proof.
  induction b as [| c b IH]; simpl; [reflexivity |].
  now rewrite Ascii.eqb_refl, IH.
Qed.

Lemma substr_app (b t : string) : substr (b ++ t) (String.length b) = t.
Proof. induction b as [| c b IH]; simpl; [now destruct t | exact IH]. Qed.

(** A matched prefix is never longer than the path, so [substr] is always
    called within bounds. *)
Lemma starts_with_case_length (h n : string) :
  utf8.starts_with_case h n = true -> (String.length n <= String.length h)%nat.
Proof.
  revert h; induction n as [| c n IH]; intros h; simpl; [lia |].
  destruct h as [| d h]; [discriminate |].
  rewrite andb_true_iff. intros [_ Hn]. apply IH in Hn. simpl. lia.
Qed.

Lemma starts_with_length (h n : string) :
  utf8.starts_with h n = true -> (String.length n <= String.length h)%nat.
Proof.
  revert h; induction n as [| c n IH]; intros h; simpl; [lia |].
  destruct h as [| d h]; [discriminate |].
  rewrite andb_true_iff. intros [_ Hn]. apply IH in Hn. simpl. lia.
Qed.

(** A literal prefix splits the string. *)
Lemma starts_with_split (h n : string) :
  utf8.starts_with h n = true ->
  h = n ++ substr h (String.length n).
Proof.
  revert h; induction n as [| c n IH]; intros h; simpl.
  - now destruct h.
  - destruct h as [| d h]; [discriminate |].
    rewrite andb_true_iff, Ascii.eqb_eq. intros [-> Hn].
    f_equal. now apply IH.
Qed.

(** Two prefixes that match one path overlap. *)
Lemma common_path_overlap (p a b : string) :
  utf8.starts_with_case p a = true -> utf8.starts_with_case p b = true ->
  overlap a b = true.
Proof.
  unfold overlap.
  revert p b; induction a as [| x a IH]; intros p b Ha Hb.
  - destruct b; reflexivity.
  - destruct b as [| y b]; [reflexivity |].
    simpl in Ha, Hb. destruct p as [| d p]; [discriminate |].
    apply andb_true_iff in Ha as [Hx Ha], Hb as [Hy Hb].
    specialize (IH p b Ha Hb). simpl.
    rewrite (equal_ascii_case_trans x d y), (equal_ascii_case_trans y d x); auto;
      apply equal_ascii_case_iff; symmetry; now apply equal_ascii_case_iff.
Qed.

Lemma overlap_sym (a b : string) : overlap a b = overlap b a.
Proof. unfold overlap. apply orb_comm. Qed.

(** A source that does not overlap a target matches no path under it. *)
Lemma no_overlap_no_match (source target t : string) :
  overlap source target = false ->
  utf8.starts_with_case (target ++ t) source = false.
Proof.
  intros Hno. destruct (utf8.starts_with_case (target ++ t) source) eqn:Hm;
    [| reflexivity].
  pose proof (common_path_overlap _ _ _ Hm (starts_with_case_app target t)).
  congruence.
Qed.

(* ================================================================== *)
(** ** Symbolic links *)
(* ================================================================== *)

Lemma ResolveSymbolicLink_loop_rewrites (symlinks_ : SymlinkTable) :
  forall fuel p b b' r,
    ResolveSymbolicLink_loop fuel symlinks_ p b = Some (b', r) ->
    exists n, (n < fuel)%nat /\ rewrites symlinks_ n p r
              /\ rewrite_once symlinks_ r = None
              /\ b' = (b || negb (Nat.eqb n 0)).
Proof.
  induction fuel as [| fuel IH]; intros p b b' r; simpl; [discriminate |].
  destruct (find_symlink symlinks_ p) as [[source target] |] eqn:Hf.
  - intros Hr. apply IH in Hr as (n & Hn & Hrw & Hstop & ->).
    exists (S n). repeat split; [lia | | assumption | ].
    + econstructor; [| eassumption]. unfold rewrite_once. now rewrite Hf.
    + simpl. now rewrite !orb_true_r.
  - intros [= <- <-]. exists 0%nat. repeat split; [lia | constructor | | ].
    + unfold rewrite_once. now rewrite Hf.
    + simpl. now rewrite orb_false_r.
Qed.

Lemma rewrites_ResolveSymbolicLink_loop (symlinks_ : SymlinkTable) :
  forall n p r, rewrites symlinks_ n p r ->
    rewrite_once symlinks_ r = None ->
    forall fuel b, (n < fuel)%nat ->
      ResolveSymbolicLink_loop fuel symlinks_ p b
      = Some (b || negb (Nat.eqb n 0), r).
Proof.
  induction 1 as [p | n p q r Hone Hrw IH]; intros Hstop fuel b Hlt.
  - destruct fuel as [| fuel]; [lia |]. simpl.
    unfold rewrite_once in Hstop.
    destruct (find_symlink symlinks_ p) as [[? ?] |]; [discriminate |].
    now rewrite orb_false_r.
  - destruct fuel as [| fuel]; [lia |]. simpl.
    unfold rewrite_once in Hone.
    destruct (find_symlink symlinks_ p) as [[source target] |]; [| discriminate].
    injection Hone as <-. simpl.
    rewrite (IH Hstop fuel true) by lia. now rewrite orb_true_r.
Qed.

(** Nothing matches: the path comes back as it is, unresolved. *)
Lemma ResolveSymbolicLink_no_match (symlinks_ : SymlinkTable) (path : string) (fuel : nat) :
  find_symlink symlinks_ path = None ->
  ResolveSymbolicLink (S fuel) symlinks_ path = Some (false, path).
Proof. intros Hf. unfold ResolveSymbolicLink. simpl. now rewrite Hf. Qed.

(** The chain A -> B, B -> C, in either order of the table. *)
Lemma ResolveSymbolicLink_chain (A B C path : string) (symlinks_ : SymlinkTable) (fuel : nat) :
  symlinks_ = [(A, B); (B, C)] \/ symlinks_ = [(B, C); (A, B)] ->
  acyclic_chain A B C = true ->
  utf8.starts_with_case path A = true ->
  ResolveSymbolicLink (3 + fuel) symlinks_ path
  = Some (true, C ++ substr path (String.length A)).
Proof.
  intros Htable Hchain HA.
  unfold acyclic_chain in Hchain.
  apply andb_true_iff in Hchain as [Hchain HBC].
  apply andb_true_iff in Hchain as [HAB HAC].
  apply negb_true_iff in HAB, HAC, HBC.
  assert (HB : utf8.starts_with_case path B = false).
  { destruct (utf8.starts_with_case path B) eqn:HB; [| reflexivity].
    pose proof (common_path_overlap _ _ _ HA HB). congruence. }
  set (s := substr path (String.length A)).
  assert (H1 : utf8.starts_with_case (B ++ s) A = false)
    by now apply no_overlap_no_match.
  assert (H2 : utf8.starts_with_case (C ++ s) A = false)
    by now apply no_overlap_no_match.
  assert (H3 : utf8.starts_with_case (C ++ s) B = false)
    by now apply no_overlap_no_match.
  pose proof (starts_with_case_app B s) as H4.
  unfold ResolveSymbolicLink.
  destruct Htable as [-> | ->]; cbn [Nat.add ResolveSymbolicLink_loop];
    unfold find_symlink; cbn [find fst snd];
    rewrite ?HA, ?HB; cbn [find fst snd]; rewrite ?HA;
    fold s; rewrite ?H1, ?H4; cbn [fst snd]; rewrite ?H4; cbn [fst snd];
    rewrite substr_app, ?H2, ?H3, ?H2; reflexivity.
Qed.

(** [std::find_if] over a list: the element found is the first one that
    passes the test. *)
Lemma find_first {A : Type} (f : A -> bool) (l : list A) (x : A) :
  find f l = Some x <->
  exists before after,
    l = (before ++ x :: after)%list
    /\ forallb (fun y => negb (f y)) before = true
    /\ f x = true.
Proof.
  split.
  - induction l as [| a l IH]; simpl; [discriminate |].
    destruct (f a) eqn:Hfa.
    + intros [= ->]. now exists [], l.
    + intros Hx. destruct (IH Hx) as (before & after & -> & Hb & Hfx).
      exists (a :: before), after. simpl. now rewrite Hfa, Hb.
  - intros (before & after & -> & Hb & Hfx).
    induction before as [| a before IH]; simpl in *.
    + now rewrite Hfx.
    + apply andb_true_iff in Hb as [Ha Hb].
      apply negb_true_iff in Ha. rewrite Ha. now apply IH.
Qed.

Lemma find_nothing {A : Type} (f : A -> bool) (l : list A) :
  find f l = None <-> forallb (fun y => negb (f y)) l = true.
Proof.
  induction l as [| a l IH]; simpl; [tauto |].
  destruct (f a); simpl; [split; discriminate | exact IH].
Qed.

Lemma rewrite_once_first (symlinks_ : SymlinkTable) (p q : string) :
  rewrite_once symlinks_ p = Some q <->
  exists before source target after,
    symlinks_ = (before ++ (source, target) :: after)%list
    /\ forallb (fun s => negb (utf8.starts_with_case p (fst s))) before = true
    /\ utf8.starts_with_case p source = true
    /\ q = target ++ substr p (String.length source).
Proof.
  unfold rewrite_once, find_symlink. split.
  - destruct (find _ symlinks_) as [[source target] |] eqn:Hf; [| discriminate].
    intros [= <-]. apply find_first in Hf as (before & after & -> & Hb & Hm).
    now exists before, source, target, after.
  - intros (before & source & target & after & Ht & Hb & Hm & ->).
    assert (Hf : find (fun s => utf8.starts_with_case p (fst s)) symlinks_
                 = Some (source, target))
      by (apply find_first; now exists before, after).
    now rewrite Hf.
Qed.

(** An unresolved result is the path itself. *)
Lemma ResolveSymbolicLink_unresolved (fuel : nat) (symlinks_ : SymlinkTable) (path r : string) :
  ResolveSymbolicLink fuel symlinks_ path = Some (false, r) -> r = path.
Proof.
  intros Hr. apply ResolveSymbolicLink_loop_rewrites in Hr
    as (n & _ & Hrw & _ & Hb).
  destruct n; [now inversion Hrw | discriminate].
Qed.

Lemma rewrites_last (symlinks_ : SymlinkTable) :
  forall n p r, rewrites symlinks_ (S n) p r ->
    exists q, rewrite_once symlinks_ q = Some r.
Proof.
  induction n as [| n IH]; intros p r Hrw; inversion Hrw as [| ? ? q ? Hone Hrest];
    subst.
  - inversion Hrest; subst. now exists p.
  - now apply (IH q).
Qed.

(** Whenever the loop returns on the chain, it returns a path under C. *)
Lemma ResolveSymbolicLink_chain_result (A B C path : string) (symlinks_ : SymlinkTable) (fuel : nat) (b : bool) (r : string) :
  symlinks_ = [(A, B); (B, C)] \/ symlinks_ = [(B, C); (A, B)] ->
  utf8.starts_with_case path A = true ->
  ResolveSymbolicLink fuel symlinks_ path = Some (b, r) ->
  b = true /\ utf8.starts_with r C = true.
Proof.
  intros Htable HA Hr.
  apply ResolveSymbolicLink_loop_rewrites in Hr as (n & _ & Hrw & Hstop & ->).
  destruct n as [| n].
  - inversion Hrw; subst. exfalso. revert Hstop.
    unfold rewrite_once, find_symlink.
    destruct Htable as [-> | ->]; simpl; rewrite HA;
      [| destruct (utf8.starts_with_case r B)]; discriminate.
  - split; [reflexivity |].
    apply rewrites_last in Hrw as (q & Hq).
    assert (Hcase : (exists s, r = B ++ s) \/ (exists s, r = C ++ s)).
    { revert Hq. unfold rewrite_once, find_symlink.
      destruct Htable as [-> | ->]; simpl;
        destruct (utf8.starts_with_case q A), (utf8.starts_with_case q B);
        simpl; intros [= <-]; eauto. }
    destruct Hcase as [[s ->] | [s ->]]; [| apply starts_with_app].
    exfalso. revert Hstop. unfold rewrite_once, find_symlink.
    pose proof (starts_with_case_app B s) as HB.
    destruct Htable as [-> | ->]; simpl; rewrite HB;
      [destruct (utf8.starts_with_case (B ++ s) A) |]; discriminate.
Qed.

(** C2.  [ResolveSymbolicLink] rewrites the path by the first matching table
    entry (its target in place of the matched source prefix, the suffix
    kept) until no entry matches, and returns true exactly when at least one
    rewrite took place.  For a chain A -> B, B -> C without a cycle, a path
    under A resolves to a path under C (three turns of the loop are enough
    when no two of the prefixes overlap; and on this table, whenever the
    loop returns at all, it returns true and a path under C); a path that no
    source prefix matches comes back unchanged with the answer false. *)
Theorem ResolveSymbolicLink_correct (symlinks_ : SymlinkTable) (path : string) :
  (forall p q,
      rewrite_once symlinks_ p = Some q <->
      exists before source target after,
        symlinks_ = (before ++ (source, target) :: after)%list
        /\ forallb (fun s => negb (utf8.starts_with_case p (fst s))) before
           = true
        /\ utf8.starts_with_case p source = true
        /\ q = target ++ substr p (String.length source))
  /\ (forall fuel was_resolved result,
         ResolveSymbolicLink fuel symlinks_ path = Some (was_resolved, result)
         <-> exists n, (n < fuel)%nat
                       /\ rewrites symlinks_ n path result
                       /\ rewrite_once symlinks_ result = None
                       /\ was_resolved = negb (Nat.eqb n 0))
  /\ (forall A B C,
         symlinks_ = [(A, B); (B, C)] \/ symlinks_ = [(B, C); (A, B)] ->
         acyclic_chain A B C = true ->
         utf8.starts_with_case path A = true ->
         forall fuel, (3 <= fuel)%nat ->
           ResolveSymbolicLink fuel symlinks_ path
           = Some (true, C ++ substr path (String.length A))
           /\ utf8.starts_with (C ++ substr path (String.length A)) C = true)
  /\ (forall A B C,
         symlinks_ = [(A, B); (B, C)] \/ symlinks_ = [(B, C); (A, B)] ->
         utf8.starts_with_case path A = true ->
         forall fuel was_resolved result,
           ResolveSymbolicLink fuel symlinks_ path
           = Some (was_resolved, result) ->
           was_resolved = true /\ utf8.starts_with result C = true)
  /\ (find_symlink symlinks_ path = None ->
      forall fuel, (1 <= fuel)%nat ->
        ResolveSymbolicLink fuel symlinks_ path = Some (false, path)).
Proof.
  split; [| split; [| split; [| split]]].
  - intros p q. apply rewrite_once_first.
  - intros fuel was_resolved result. split.
    + intros Hr. apply ResolveSymbolicLink_loop_rewrites in Hr
        as (n & Hn & Hrw & Hstop & ->). now exists n.
    + intros (n & Hn & Hrw & Hstop & ->).
      unfold ResolveSymbolicLink.
      now rewrite (rewrites_ResolveSymbolicLink_loop _ _ _ _ Hrw Hstop fuel false Hn).
  - intros A B C Htable Hchain HA fuel Hfuel.
    replace fuel with (3 + (fuel - 3))%nat by lia.
    split; [now apply (ResolveSymbolicLink_chain A B C) | apply starts_with_app].
  - intros A B C Htable HA fuel was_resolved result Hr.
    now apply (ResolveSymbolicLink_chain_result A B C path symlinks_ fuel).
  - intros Hf fuel Hfuel. destruct fuel as [| fuel]; [lia |].
    now apply ResolveSymbolicLink_no_match.
Qed.

Lemma ResolveSymbolicLink_correct_witness :
  acyclic_chain "d:" "game:" "\Device\Harddisk0" = true
  /\ utf8.starts_with_case "D:\data\a.bin" "d:" = true
  /\ ResolveSymbolicLink 3 [("game:", "\Device\Harddisk0"); ("d:", "game:")]
                         "D:\data\a.bin"
     = Some (true, "\Device\Harddisk0\data\a.bin")
  /\ ResolveSymbolicLink 3 [("game:\dlc", "game:"); ("game:", "cache:")]
                         "game:\dlc\a.bin"
     = Some (true, "cache:\a.bin")
  /\ utf8.starts_with "cache:\a.bin" "cache:" = true
  /\ find_symlink [("d:", "game:")] "cache:\x" = None
  /\ ResolveSymbolicLink 1 [("d:", "game:")] "cache:\x"
     = Some (false, "cache:\x").
Proof.
  split; [reflexivity |]. split; [reflexivity |]. split.
  - destruct (ResolveSymbolicLink_correct
                [("game:", "\Device\Harddisk0"); ("d:", "game:")]
                "D:\data\a.bin") as (_ & _ & Hchain & _ & _).
    exact (proj1 (Hchain "d:" "game:" "\Device\Harddisk0"
                         (or_intror eq_refl) eq_refl eq_refl 3%nat (le_n 3))).
  - split; [reflexivity |]. split.
    + destruct (ResolveSymbolicLink_correct
                  [("game:\dlc", "game:"); ("game:", "cache:")]
                  "game:\dlc\a.bin") as (_ & _ & _ & Hany & _).
      exact (proj2 (Hany "game:\dlc" "game:" "cache:" (or_introl eq_refl)
                         eq_refl 3%nat true "cache:\a.bin" eq_refl)).
    + split; [reflexivity |].
      destruct (ResolveSymbolicLink_correct [("d:", "game:")] "cache:\x")
        as (_ & _ & _ & _ & Hnone).
      exact (Hnone eq_refl 1%nat (le_n 1)).
Defined.

(* ================================================================== *)
(** ** Device registry and path resolution *)
(* ================================================================== *)

Section Registry.

Context {Entry World : Type}.
Variable G : GuestPath.

Local Abbreviation Dev := (Device Entry World).
Local Abbreviation Vfs := (VirtualFileSystem Entry World).

Lemma UnregisterDevice_loop_found (path : string) (before after : list Dev) (d : Dev) :
  (forall x, In x before -> mount_path x <> path) ->
  mount_path d = path ->
  UnregisterDevice_loop (before ++ d :: after) path
  = (true, (before ++ after)%list).
Proof.
  intros Hbefore Hd. induction before as [| a before IH]; simpl.
  - apply String.eqb_eq in Hd. now rewrite Hd.
  - assert (Ha : String.eqb (mount_path a) path = false)
      by (apply String.eqb_neq, Hbefore; now left).
    rewrite Ha, IH; [reflexivity |].
    intros x Hx. apply Hbefore. now right.
Qed.

Lemma UnregisterDevice_loop_missing (path : string) (devices : list Dev) :
  (forall x, In x devices -> mount_path x <> path) ->
  UnregisterDevice_loop devices path = (false, devices).
Proof.
  intros Hall. induction devices as [| a devices IH]; simpl; [reflexivity |].
  assert (Ha : String.eqb (mount_path a) path = false)
    by (apply String.eqb_neq, Hall; now left).
  rewrite Ha, IH; [reflexivity |].
  intros x Hx. apply Hall. now right.
Qed.

(** C7, as the code has it.  [UnregisterDevice] removes the first registered
    device whose mount path is equal to the argument byte for byte (the
    comparison is [==], which does not fold case) and returns true; if no
    device's mount path is equal to the argument it removes nothing and
    returns false. *)
Theorem UnregisterDevice_exact (vfs : Vfs) (path : string) :
  (forall before d after,
      devices_ vfs = (before ++ d :: after)%list ->
      (forall x, In x before -> mount_path x <> path) ->
      mount_path d = path ->
      UnregisterDevice vfs path
      = (true, {| devices_ := (before ++ after)%list;
                  symlinks_ := symlinks_ vfs |}))
  /\ ((forall x, In x (devices_ vfs) -> mount_path x <> path) ->
      UnregisterDevice vfs path = (false, vfs)).
Proof.
  destruct vfs as [devices symlinks]. unfold UnregisterDevice. simpl. split.
  - intros before d after -> Hbefore Hd.
    now rewrite UnregisterDevice_loop_found.
  - intros Hall. now rewrite UnregisterDevice_loop_missing.
Qed.

Lemma ResolvePath_unfold (fuel : nat) (vfs : Vfs) (w : World) (path : string) (b : bool) (r : string) :
  ResolveSymbolicLink fuel (symlinks_ vfs) (canonicalize_guest_path G path)
  = Some (b, r) ->
  ResolvePath G fuel vfs w path
  = match find_device (devices_ vfs) r with
    | None => Some None
    | Some device =>
        Some (DeviceResolvePath device w
                (substr r (String.length (mount_path device))))
    end.
Proof.
  intros Hr. unfold ResolvePath. rewrite Hr. simpl.
  destruct b; [reflexivity |].
  apply ResolveSymbolicLink_unresolved in Hr. now subst r.
Qed.

(** C3.  After canonicalisation and symbolic-link resolution (which give
    [r]), [ResolvePath] hands the rest of the path to the first device, in
    registration order, whose mount path is a literal prefix of [r]; a device
    registered before another one wins when both mount paths are prefixes,
    whatever their lengths; when no mount path is a prefix the result is
    null. *)
Theorem ResolvePath_first_device (fuel : nat) (vfs : Vfs) (w : World) (path : string) (b : bool) (r : string) :
  ResolveSymbolicLink fuel (symlinks_ vfs) (canonicalize_guest_path G path)
  = Some (b, r) ->
  (forall before d after,
      devices_ vfs = (before ++ d :: after)%list ->
      forallb (fun x => negb (utf8.starts_with r (mount_path x))) before
      = true ->
      utf8.starts_with r (mount_path d) = true ->
      find_device (devices_ vfs) r = Some d
      /\ ResolvePath G fuel vfs w path
         = Some (DeviceResolvePath d w
                   (substr r (String.length (mount_path d)))))
  /\ (forall vfs0 d1 d2,
         devices_ vfs0 = [] ->
         vfs = snd (RegisterDevice (snd (RegisterDevice vfs0 d1)) d2) ->
         utf8.starts_with r (mount_path d1) = true ->
         utf8.starts_with r (mount_path d2) = true ->
         ResolvePath G fuel vfs w path
         = Some (DeviceResolvePath d1 w
                   (substr r (String.length (mount_path d1)))))
  /\ (forallb (fun x => negb (utf8.starts_with r (mount_path x)))
              (devices_ vfs) = true ->
      ResolvePath G fuel vfs w path = Some None).
Proof.
  intros Hr. rewrite (ResolvePath_unfold _ _ _ _ _ _ Hr).
  split; [| split].
  - intros before d after Hd Hbefore Hm.
    assert (Hf : find_device (devices_ vfs) r = Some d)
      by (apply find_first; now exists before, after).
    now rewrite Hf.
  - intros vfs0 d1 d2 H0 -> H1 H2. simpl. rewrite H0. simpl.
    unfold find_device. simpl. now rewrite H1.
  - intros Hnone. apply find_nothing in Hnone.
    unfold find_device. now rewrite Hnone.
Qed.

End Registry.

(** The wider mount path was registered first: it wins over the longer one. *)
Lemma ResolvePath_first_device_witness :
  let d1 := Mem.device "\Device\Harddisk0" "hdd" in
  let d2 := Mem.device "\Device\Harddisk0\Partition1" "part" in
  let vfs0 := {| devices_ := []; symlinks_ := [("d:", "\Device\Harddisk0")] |} in
  let vfs := snd (RegisterDevice (snd (RegisterDevice vfs0 d1)) d2) in
  let w := [(["hdd"; "Partition1"; "a.bin"], Mem.file false true 0);
            (["part"; "a.bin"], Mem.file true true 0)] in
  ResolveSymbolicLink 2 (symlinks_ vfs) "d:\Partition1\a.bin"
  = Some (true, "\Device\Harddisk0\Partition1\a.bin")
  /\ utf8.starts_with "\Device\Harddisk0\Partition1\a.bin" (mount_path d1) = true
  /\ utf8.starts_with "\Device\Harddisk0\Partition1\a.bin" (mount_path d2) = true
  /\ ResolvePath Mem.paths 2 vfs w "d:\Partition1\a.bin"
     = Some (Some ["hdd"; "Partition1"; "a.bin"]).
Proof.
  intros d1 d2 vfs0 vfs w.
  split; [reflexivity |]. split; [reflexivity |]. split; [reflexivity |].
  destruct (ResolvePath_first_device Mem.paths 2 vfs w "d:\Partition1\a.bin"
              true "\Device\Harddisk0\Partition1\a.bin" eq_refl)
    as (_ & Hfirst & _).
  exact (Hfirst vfs0 d1 d2 eq_refl eq_refl eq_refl eq_refl).
Defined.

Lemma UnregisterDevice_exact_witness :
  let d1 := Mem.device "\Device\Harddisk0" "hdd" in
  let d2 := Mem.device "\Device\Cdrom0" "cdrom" in
  let vfs := {| devices_ := [d1; d2; d2]; symlinks_ := [] |} in
  UnregisterDevice vfs "\Device\Cdrom0"
  = (true, {| devices_ := [d1; d2]; symlinks_ := [] |})
  /\ UnregisterDevice vfs "\Device\Cdrom1" = (false, vfs).
Proof.
  intros d1 d2 vfs.
  destruct (UnregisterDevice_exact vfs "\Device\Cdrom0") as (Hfound & _).
  destruct (UnregisterDevice_exact vfs "\Device\Cdrom1") as (_ & Hmissing).
  split.
  - apply (Hfound [d1] d2 [d2] eq_refl); [| reflexivity].
    intros x [<- | []]. discriminate.
  - apply Hmissing. intros x [<- | [<- | [<- | []]]]; discriminate.
Defined.

(** C7, as the claim words it, fails: a mount path that differs from the
    argument only in case is equal to it up to case, yet the device stays
    registered and the answer is false. *)
Lemma UnregisterDevice_case_counterexample :
  let d := Mem.device "\Device\Cdrom0" "cdrom" in
  let vfs := {| devices_ := [d]; symlinks_ := [] |} in
  utf8.equal_case (mount_path d) "\device\cdrom0" = true
  /\ UnregisterDevice vfs "\device\cdrom0" = (false, vfs).
Proof. split; reflexivity. Qed.

(* ================================================================== *)
(** ** Path creation *)
(* ================================================================== *)

Lemma skipn_nth_cons {A : Type} (d : A) (l : list A) :
  forall i, (i < List.length l)%nat -> skipn i l = nth i l d :: skipn (S i) l.
Proof.
  induction l as [| a l IH]; intros i Hi; simpl in Hi; [lia |].
  destruct i as [| i]; [reflexivity |].
  simpl. apply IH. lia.
Qed.

Lemma last_cons_default {A : Type} (l : list A) :
  forall a d d', last (a :: l) d = last (a :: l) d'.
Proof.
  induction l as [| b l IH]; intros a d d'; [reflexivity |].
  change (last (b :: l) d = last (b :: l) d'). apply IH.
Qed.

Lemma nth_length_cons_last {A : Type} (d : A) (l : list A) :
  forall a, nth (List.length l) (a :: l) d = last l a.
Proof.
  induction l as [| b l IH]; intros a; [reflexivity |].
  change (nth (List.length (b :: l)) (a :: b :: l) d)
    with (nth (List.length l) (b :: l) d).
  rewrite IH. destruct l as [| c l]; [reflexivity |].
  change (last (c :: l) b = last (c :: l) a). apply last_cons_default.
Qed.

Section Creation.

Context {Entry World File : Type}.
Variable E : EntryModel Entry World File.
Variable G : GuestPath.

Local Abbreviation Vfs := (VirtualFileSystem Entry World).

(** The indexed loop walks the segments [i], [i+1], ... of the path. *)
Lemma CreatePath_loop_middle (fuel : nat) (vfs : Vfs) (path_parts : list string) :
  forall count i partial_path parent_entry w,
    (i + count <= List.length path_parts)%nat ->
    CreatePath_loop E G fuel vfs path_parts count i partial_path parent_entry w
    = create_middle E G fuel vfs (firstn count (skipn i path_parts))
                    partial_path parent_entry w.
Proof.
  induction count as [| count IH]; intros i partial_path parent_entry w Hi.
  - reflexivity.
  - rewrite (skipn_nth_cons "" path_parts i) by lia.
    cbn [firstn CreatePath_loop create_middle].
    destruct (ResolvePath G fuel vfs w _) as [[child |] |]; simpl.
    + apply IH. lia.
    + destruct (CreateEntry E parent_entry _ _ w) as [[child |] w'].
      * apply IH. lia.
      * reflexivity.
    + reflexivity.
Qed.

(** C8.  [CreatePath] does what the description says of it
    ([CreatePath_spec]): no segments, or a first segment that does not
    resolve, give null; each middle segment is resolved along the growing
    path and, where it does not resolve, created as a directory under the
    current parent; the last segment is created under the current parent
    with the caller's attributes; a refused creation gives null. *)
Theorem CreatePath_refines_spec (fuel : nat) (vfs : Vfs) (path : string) (attrs : Z) (w : World) :
  CreatePath E G fuel vfs path attrs w
  = CreatePath_spec E G fuel vfs path attrs w.
Proof.
  unfold CreatePath, CreatePath_spec.
  destruct (split_path G path) as [| first rest] eqn:Hparts; [reflexivity |].
  assert (H1 : (List.length (first :: rest) - 1 - 1)%nat
               = pred (List.length rest)) by (simpl; lia).
  assert (H2 : (List.length (first :: rest) - 1)%nat = List.length rest)
    by (simpl; lia).
  rewrite H1, H2, nth_length_cons_last.
  change (nth 0 (first :: rest) "") with first.
  destruct (ResolvePath G fuel vfs w first) as [[root |] |]; cbn [bind];
    [| reflexivity | reflexivity].
  rewrite CreatePath_loop_middle by (simpl; lia). cbn [skipn].
  rewrite <- removelast_firstn_len.
  destruct (create_middle E G fuel vfs (removelast rest) first root w)
    as [[[parent_entry |] w'] |]; reflexivity.
Qed.

End Creation.

(* ================================================================== *)
(** ** The open-disposition state machine *)
(* ================================================================== *)

Section OpenEngine.

Context {Entry World File : Type}.
Variable E : EntryModel Entry World File.
Variable G : GuestPath.

Local Abbreviation Vfs := (VirtualFileSystem Entry World).
Local Abbreviation Result := (OpenResult File World).

Lemma OpenFile_after_lookup (fuel : nat) (vfs : Vfs) (root_entry : option Entry) (path : string) (disposition : FileDisposition) (desired_access : Z) (is_directory is_non_directory : bool) (w w1 : World) (parent_entry entry : option Entry) :
  OpenFile_lookup E G fuel vfs root_entry path is_non_directory w
  = Some (LookupDone parent_entry entry w1) ->
  OpenFile E G fuel vfs root_entry path disposition desired_access
           is_directory is_non_directory w
  = OpenFile_dispose E G fuel vfs path disposition
                     (cleanup_access desired_access) is_directory
                     parent_entry entry w1.
Proof. intros Hl. unfold OpenFile. now rewrite Hl. Qed.

(** An entry that is still there after the lookup was not touched by it. *)
Lemma OpenFile_lookup_present (fuel : nat) (vfs : Vfs) (root_entry : option Entry) (path : string) (is_non_directory : bool) (w w1 : World) (parent_entry : option Entry) (e : Entry) :
  OpenFile_lookup E G fuel vfs root_entry path is_non_directory w
  = Some (LookupDone parent_entry (Some e) w1) ->
  w1 = w.
Proof.
  unfold OpenFile_lookup.
  destruct (OpenFile_find E G fuel vfs root_entry path w)
    as [[[s a] | [p [entry |]]] |]; simpl; try discriminate.
  unfold OpenFile_check.
  destruct (truthy _ && is_non_directory); [discriminate |].
  destruct p as [p |]; [| now intros [= _ _ ->]].
  destruct (host_exists E w p _) as [[|] |]; try now intros [= _ _ ->].
  destruct (Delete E entry w). discriminate.
Qed.

(** What the lookup can return early. *)
Lemma OpenFile_lookup_return (fuel : nat) (vfs : Vfs) (root_entry : option Entry) (path : string) (is_non_directory : bool) (w w1 : World) (s : X_STATUS) (a : option FileAction) :
  OpenFile_lookup E G fuel vfs root_entry path is_non_directory w
  = Some (LookupReturn s a w1) ->
  w1 = w
  /\ ((s = X_STATUS_NO_SUCH_FILE /\ a = Some kDoesNotExist)
      \/ (s = X_STATUS_FILE_IS_A_DIRECTORY /\ a = None
          /\ is_non_directory = true
          /\ exists parent_entry e,
               OpenFile_find E G fuel vfs root_entry path w
               = Some (inr (parent_entry, Some e))
               /\ truthy (Z.land (attributes E w e) kFileAttributeDirectory)
                  = true)).
Proof.
  unfold OpenFile_lookup.
  destruct (OpenFile_find E G fuel vfs root_entry path w)
    as [[[s' a'] | [p [entry |]]] |] eqn:Hfind; simpl; try discriminate.
  - intros [= <- <- <-]. split; [reflexivity |]. left.
    unfold OpenFile_find in Hfind.
    destruct (negb _) in Hfind; destruct root_entry as [root |];
      cbn [bind] in Hfind;
      try destruct (ResolvePath G fuel vfs w _) as [[x |] |];
      try destruct (EntryResolvePath E w root _) as [x |];
      cbn [bind] in Hfind; try discriminate;
      injection Hfind as <- <-; now split.
  - unfold OpenFile_check.
    destruct (truthy _) eqn:Hdir; destruct is_non_directory; simpl;
      try (destruct p as [p |]; [| discriminate];
           destruct (host_exists E w p _) as [[|] |]; try discriminate;
           destruct (Delete E entry w); discriminate).
    intros [= <- <- <-]. split; [reflexivity |]. right.
    repeat split. now exists p, entry.
Qed.

(** Every way out of lines 247-333, by the action left in [out_action]. *)
Lemma OpenFile_dispose_action (fuel : nat) (vfs : Vfs) (path : string) (disposition : FileDisposition) (desired_access : Z) (is_directory : bool) (parent_entry entry : option Entry) (w1 : World) (r : Result) :
  OpenFile_dispose E G fuel vfs path disposition desired_access is_directory
                   parent_entry entry w1 = Some r ->
  match out_action r with
  | Some kExists =>
      disposition = kCreate /\ entry <> None
      /\ status r = X_STATUS_OBJECT_NAME_COLLISION
      /\ out_file r = None /\ world r = w1
  | None =>
      status r = X_STATUS_ACCESS_DENIED /\ out_file r = None
      /\ (disposition = kSuperscede \/ disposition = kOverwrite
          \/ disposition = kOverwriteIf)
      /\ exists e, entry = Some e /\ Delete E e w1 = (false, world r)
  | Some _ => True
  end.
Proof.
  unfold OpenFile_dispose, check_exists, replace_entry, open_entry.
  destruct disposition, entry as [e |];
    try destruct (Delete E e w1) as [[|] w2] eqn:HD; simpl;
    try (intros [= <-]; simpl; now repeat split);
    try (intros [= <-]; simpl; repeat split; eauto; fail);
    try (destruct (CreatePath E G fuel vfs path _ _) as [[[e' |] w3] |];
         simpl; [| | discriminate]);
    try (intros [= <-]; simpl; exact I);
    try (destruct (Open E _ _ _) as [[s f] w4]; intros [= <-]; simpl;
         destruct (XFAILED s); exact I).
Qed.

(** C1, as the code has it.  Once the lookup is past (the parent resolved,
    no clash with [is_non_directory]; [entry] is what is left after a stale
    cached entry was dropped), the outcome follows the table of dispositions
    by existence: Open or Overwrite on an absent entry fail with NoSuchFile
    and action DoesNotExist; Create on a present entry fails with
    NameCollision and action Exists; an absent entry under any other
    disposition is created through [CreatePath] with action Created; a
    present entry under Open or OpenIf is opened as it is with action Opened;
    under Overwrite, OverwriteIf or Supersede it is deleted (AccessDenied if
    the delete is refused) and created again, with action Overwritten or
    Superseded.  A refused creation returns AccessDenied, and the status is
    that of the entry's own [Open]: the action of the table stands when that
    status is a success and is replaced by DoesNotExist when it is a
    failure. *)
Theorem OpenFile_disposition_table (fuel : nat) (vfs : Vfs) (root_entry : option Entry) (path : string) (disposition : FileDisposition) (desired_access : Z) (is_directory is_non_directory : bool) (w w1 : World) (parent_entry entry : option Entry) :
  OpenFile_lookup E G fuel vfs root_entry path is_non_directory w
  = Some (LookupDone parent_entry entry w1) ->
  let access :=
    verify_permissions E w1 parent_entry entry (cleanup_access desired_access) in
  let run :=
    OpenFile E G fuel vfs root_entry path disposition desired_access
             is_directory is_non_directory w in
  let create (action : FileAction) (created : option Entry * World)
    : Result :=
    match created with
    | (None, w3) =>
        {| status := X_STATUS_ACCESS_DENIED; out_file := None;
           out_action := Some action; world := w3 |}
    | (Some e, w3) => open_entry E e access action w3
    end in
  (disposition = kOpen \/ disposition = kOverwrite ->
   entry = None ->
   run = Some {| status := X_STATUS_NO_SUCH_FILE; out_file := None;
                 out_action := Some kDoesNotExist; world := w1 |})
  /\ (disposition = kCreate ->
      entry <> None ->
      run = Some {| status := X_STATUS_OBJECT_NAME_COLLISION; out_file := None;
                    out_action := Some kExists; world := w1 |})
  /\ (disposition <> kOpen -> disposition <> kOverwrite ->
      entry = None ->
      forall created,
        CreatePath E G fuel vfs path (create_attributes is_directory) w1
        = Some created ->
        run = Some (create kCreated created))
  /\ (disposition = kOpen \/ disposition = kOpenIf ->
      forall e, entry = Some e ->
        run = Some (open_entry E e access kOpened w1))
  /\ (forall action,
         (disposition = kOverwrite \/ disposition = kOverwriteIf)
         /\ action = kOverwritten
         \/ disposition = kSuperscede /\ action = kSuperseded ->
         forall e w2, entry = Some e ->
           (Delete E e w1 = (false, w2) ->
            run = Some {| status := X_STATUS_ACCESS_DENIED; out_file := None;
                          out_action := None; world := w2 |})
           /\ (Delete E e w1 = (true, w2) ->
               forall created,
                 CreatePath E G fuel vfs path (create_attributes is_directory)
                            w2 = Some created ->
                 run = Some (create action created)))
  /\ (forall e action w2,
         status (open_entry E e access action w2)
         = fst (fst (Open E e access w2))
         /\ out_action (open_entry E e access action w2)
            = Some (if XFAILED (fst (fst (Open E e access w2)))
                    then kDoesNotExist else action)).
Proof.
  intros Hl access run create. subst run.
  rewrite (OpenFile_after_lookup _ _ _ _ disposition desired_access
             is_directory _ _ _ _ _ Hl).
  unfold OpenFile_dispose. fold access.
  split; [| split; [| split; [| split; [| split]]]].
  - intros [-> | ->] ->; reflexivity.
  - intros -> He. destruct entry; [reflexivity | congruence].
  - intros Ho Hw -> created Hc.
    destruct disposition; try congruence; simpl; rewrite Hc;
      destruct created as [[e |] w3]; reflexivity.
  - intros [-> | ->] e ->; reflexivity.
  - intros action Hd e w2 ->. split.
    + intros HD.
      destruct Hd as [[[-> | ->] ->] | [-> ->]]; simpl; now rewrite HD.
    + intros HD created Hc.
      destruct Hd as [[[-> | ->] ->] | [-> ->]]; simpl; rewrite HD; simpl;
        rewrite Hc; destruct created as [[e' |] w3]; reflexivity.
  - intros e action w2. unfold open_entry.
    now destruct (Open E e access w2) as [[s f] w3].
Qed.

(** C4.  When the access asks for write or append data and the parent entry
    or the entry found is read-only, the permission check returns nothing:
    it replaces the access by generic-read plus read-data, and the call goes
    on exactly as the same call made with that access; an entry that is
    opened as it is, is opened with that access. *)
Theorem OpenFile_read_only_downgrade (fuel : nat) (vfs : Vfs) (root_entry : option Entry) (path : string) (disposition : FileDisposition) (desired_access : Z) (is_directory is_non_directory : bool) (w w1 : World) (parent_entry entry : option Entry) :
  OpenFile_lookup E G fuel vfs root_entry path is_non_directory w
  = Some (LookupDone parent_entry entry w1) ->
  wants_write (cleanup_access desired_access) = true ->
  is_read_only_opt E w1 parent_entry || is_read_only_opt E w1 entry = true ->
  verify_permissions E w1 parent_entry entry (cleanup_access desired_access)
  = Z.lor FileAccess.kGenericRead FileAccess.kFileReadData
  /\ OpenFile E G fuel vfs root_entry path disposition desired_access
              is_directory is_non_directory w
     = OpenFile E G fuel vfs root_entry path disposition
                (Z.lor FileAccess.kGenericRead FileAccess.kFileReadData)
                is_directory is_non_directory w
  /\ (disposition = kOpen \/ disposition = kOpenIf ->
      forall e, entry = Some e ->
        OpenFile E G fuel vfs root_entry path disposition desired_access
                 is_directory is_non_directory w
        = Some (open_entry E e
                  (Z.lor FileAccess.kGenericRead FileAccess.kFileReadData)
                  kOpened w1)).
Proof.
  intros Hl Hw Hro.
  assert (Hv : verify_permissions E w1 parent_entry entry
                 (cleanup_access desired_access) = read_only_access)
    by (unfold verify_permissions; now rewrite Hw, Hro).
  assert (Hv' : verify_permissions E w1 parent_entry entry
                  (cleanup_access read_only_access) = read_only_access)
    by reflexivity.
  fold read_only_access. split; [exact Hv |].
  rewrite !(OpenFile_after_lookup _ _ _ _ disposition _ is_directory
              _ _ _ _ _ Hl).
  unfold OpenFile_dispose. rewrite Hv, Hv'. split; [reflexivity |].
  intros [-> | ->] e ->; reflexivity.
Qed.

(** C9.  A call with disposition Create that finds the entry returns
    NameCollision with action Exists and leaves everything as it was: the
    world is the one the call started in and no file is handed out.
    Conversely, a call of any kind that reports action Exists is such a
    call and has changed nothing. *)
Theorem OpenFile_create_collision_unchanged (fuel : nat) (vfs : Vfs) (root_entry : option Entry) (path : string) (disposition : FileDisposition) (desired_access : Z) (is_directory is_non_directory : bool) (w : World) :
  (forall parent_entry e w1,
      disposition = kCreate ->
      OpenFile_lookup E G fuel vfs root_entry path is_non_directory w
      = Some (LookupDone parent_entry (Some e) w1) ->
      OpenFile E G fuel vfs root_entry path disposition desired_access
               is_directory is_non_directory w
      = Some {| status := X_STATUS_OBJECT_NAME_COLLISION; out_file := None;
                out_action := Some kExists; world := w |})
  /\ (forall r,
         OpenFile E G fuel vfs root_entry path disposition desired_access
                  is_directory is_non_directory w = Some r ->
         out_action r = Some kExists ->
         disposition = kCreate
         /\ status r = X_STATUS_OBJECT_NAME_COLLISION
         /\ out_file r = None
         /\ world r = w).
Proof.
  split.
  - intros parent_entry e w1 -> Hl.
    rewrite (OpenFile_after_lookup _ _ _ _ kCreate desired_access
               is_directory _ _ _ _ _ Hl).
    now rewrite (OpenFile_lookup_present _ _ _ _ _ _ _ _ _ Hl).
  - intros r Hr Ha. unfold OpenFile in Hr.
    destruct (OpenFile_lookup E G fuel vfs root_entry path is_non_directory w)
      as [[s a w1 | parent_entry entry w1] |] eqn:Hl; simpl in Hr;
      [| | discriminate].
    + injection Hr as <-. simpl in Ha. subst a.
      apply OpenFile_lookup_return in Hl as (_ & [[_ Hx] | (_ & Hx & _)]);
        discriminate.
    + apply OpenFile_dispose_action in Hr. rewrite Ha in Hr.
      destruct Hr as (Hd & He & Hs & Hf & Hw).
      destruct entry as [e |]; [| congruence].
      apply OpenFile_lookup_present in Hl. subst w1. now repeat split.
Qed.

(** C10, as the code has it.  When the entry found is a directory and
    [is_non_directory] is set, the call returns IsADirectory and writes
    nothing to [out_action] (nor to [out_file], nor to the world).  The only
    other way out that leaves [out_action] unwritten is the AccessDenied
    return after a refused delete; every other return writes it. *)
Theorem OpenFile_is_a_directory_keeps_action (fuel : nat) (vfs : Vfs) (root_entry : option Entry) (path : string) (disposition : FileDisposition) (desired_access : Z) (is_directory is_non_directory : bool) (w : World) :
  (forall parent_entry e,
      OpenFile_find E G fuel vfs root_entry path w
      = Some (inr (parent_entry, Some e)) ->
      truthy (Z.land (attributes E w e) kFileAttributeDirectory) = true ->
      is_non_directory = true ->
      OpenFile E G fuel vfs root_entry path disposition desired_access
               is_directory is_non_directory w
      = Some {| status := X_STATUS_FILE_IS_A_DIRECTORY; out_file := None;
                out_action := None; world := w |})
  /\ (forall r,
         OpenFile E G fuel vfs root_entry path disposition desired_access
                  is_directory is_non_directory w = Some r ->
         out_action r = None ->
         (status r = X_STATUS_FILE_IS_A_DIRECTORY /\ is_non_directory = true
          /\ world r = w)
         \/ (status r = X_STATUS_ACCESS_DENIED
             /\ (disposition = kSuperscede \/ disposition = kOverwrite
                 \/ disposition = kOverwriteIf)
             /\ exists parent_entry e w1,
                  OpenFile_lookup E G fuel vfs root_entry path
                                  is_non_directory w
                  = Some (LookupDone parent_entry (Some e) w1)
                  /\ Delete E e w1 = (false, world r))).
Proof.
  split.
  - intros parent_entry e Hf Hdir ->.
    unfold OpenFile, OpenFile_lookup. rewrite Hf. simpl.
    unfold OpenFile_check. now rewrite Hdir.
  - intros r Hr Ha. unfold OpenFile in Hr.
    destruct (OpenFile_lookup E G fuel vfs root_entry path is_non_directory w)
      as [[s a w1 | parent_entry entry w1] |] eqn:Hl; simpl in Hr;
      [| | discriminate].
    + injection Hr as <-. simpl in Ha. subst a.
      apply OpenFile_lookup_return in Hl
        as (-> & [[_ Hx] | (-> & _ & Hnd & _)]); [discriminate |].
      left. now repeat split.
    + apply OpenFile_dispose_action in Hr. rewrite Ha in Hr.
      destruct Hr as (Hs & _ & Hd & e & -> & HD).
      right. repeat split; [assumption | assumption |].
      now exists parent_entry, e, w1.
Qed.

End OpenEngine.

(** The table at work on the in-memory device: an entry that is there is
    opened as it is under OpenIf. *)
Lemma OpenFile_disposition_table_witness :
  OpenFile_lookup Mem.model Mem.paths 2 Mem.vfs None "d:\data\a.bin" false
                  Mem.world
  = Some (LookupDone (Some ["game"; "data"]) (Some ["game"; "data"; "a.bin"])
                     Mem.world)
  /\ OpenFile Mem.model Mem.paths 2 Mem.vfs None "d:\data\a.bin" kOpenIf 3
              false false Mem.world
     = Some {| status := X_STATUS_SUCCESS;
               out_file := Some (["game"; "data"; "a.bin"], 3);
               out_action := Some kOpened;
               world := Mem.world |}.
Proof.
  split; [reflexivity |].
  destruct (OpenFile_disposition_table Mem.model Mem.paths 2 Mem.vfs None
              "d:\data\a.bin" kOpenIf 3 false false Mem.world Mem.world
              (Some ["game"; "data"]) (Some ["game"; "data"; "a.bin"])
              eq_refl) as (_ & _ & _ & Hopen & _).
  exact (Hopen (or_intror eq_refl) ["game"; "data"; "a.bin"] eq_refl).
Defined.

(** C1, as the claim words it, fails: the entry is there and the disposition
    is OpenIf, yet the call does not succeed with action Opened, because the
    entry's own [Open] fails; the action is DoesNotExist. *)
Lemma OpenFile_present_entry_open_fails :
  OpenFile_lookup Mem.model Mem.paths 2 Mem.vfs None "d:\data\broken.bin"
                  false Mem.world
  = Some (LookupDone (Some ["game"; "data"])
                     (Some ["game"; "data"; "broken.bin"]) Mem.world)
  /\ OpenFile Mem.model Mem.paths 2 Mem.vfs None "d:\data\broken.bin" kOpenIf
              1 false false Mem.world
     = Some {| status := X_STATUS_ACCESS_DENIED;
               out_file := None;
               out_action := Some kDoesNotExist;
               world := Mem.world |}
  /\ XFAILED X_STATUS_ACCESS_DENIED = true.
Proof. repeat split. Qed.

(** A write request on a read-only file is opened with read access. *)
Lemma OpenFile_read_only_downgrade_witness :
  wants_write (cleanup_access FileAccess.kGenericWrite) = true
  /\ is_read_only Mem.model Mem.world ["game"; "data"; "ro.bin"] = true
  /\ OpenFile Mem.model Mem.paths 2 Mem.vfs None "d:\data\ro.bin" kOpen
              FileAccess.kGenericWrite false false Mem.world
     = Some {| status := X_STATUS_SUCCESS;
               out_file := Some (["game"; "data"; "ro.bin"], 0x80000001);
               out_action := Some kOpened;
               world := Mem.world |}.
Proof.
  split; [reflexivity |]. split; [reflexivity |].
  destruct (OpenFile_read_only_downgrade Mem.model Mem.paths 2 Mem.vfs None
              "d:\data\ro.bin" kOpen FileAccess.kGenericWrite false false
              Mem.world Mem.world
              (Some ["game"; "data"]) (Some ["game"; "data"; "ro.bin"])
              eq_refl eq_refl eq_refl) as (_ & _ & Hopen).
  exact (Hopen (or_introl eq_refl) ["game"; "data"; "ro.bin"] eq_refl).
Defined.

Lemma OpenFile_create_collision_unchanged_witness :
  OpenFile Mem.model Mem.paths 2 Mem.vfs None "d:\data\a.bin" kCreate 3
           false false Mem.world
  = Some {| status := X_STATUS_OBJECT_NAME_COLLISION; out_file := None;
            out_action := Some kExists; world := Mem.world |}
  /\ world {| status := X_STATUS_OBJECT_NAME_COLLISION;
              out_file := @None Mem.File;
              out_action := Some kExists; world := Mem.world |} = Mem.world.
Proof.
  destruct (OpenFile_create_collision_unchanged Mem.model Mem.paths 2 Mem.vfs
              None "d:\data\a.bin" kCreate 3 false false Mem.world)
    as (Hhit & Hback).
  split.
  - exact (Hhit (Some ["game"; "data"]) ["game"; "data"; "a.bin"] Mem.world
                eq_refl eq_refl).
  - exact (proj2 (proj2 (proj2 (Hback _ eq_refl eq_refl)))).
Defined.

Lemma OpenFile_is_a_directory_keeps_action_witness :
  OpenFile Mem.model Mem.paths 2 Mem.vfs None "d:\data" kOpen 1 false true
           Mem.world
  = Some {| status := X_STATUS_FILE_IS_A_DIRECTORY; out_file := None;
            out_action := None; world := Mem.world |}
  /\ exists parent_entry e w1,
       OpenFile_lookup Mem.model Mem.paths 2 Mem.vfs None
                       "d:\data\locked.bin" false Mem.world
       = Some (LookupDone parent_entry (Some e) w1)
       /\ Delete Mem.model e w1 = (false, Mem.world).
Proof.
  destruct (OpenFile_is_a_directory_keeps_action Mem.model Mem.paths 2 Mem.vfs
              None "d:\data" kOpen 1 false true Mem.world) as (Hdir & _).
  destruct (OpenFile_is_a_directory_keeps_action Mem.model Mem.paths 2 Mem.vfs
              None "d:\data\locked.bin" kSuperscede 1 false false Mem.world)
    as (_ & Hother).
  split.
  - exact (Hdir (Some ["game"]) ["game"; "data"] eq_refl eq_refl eq_refl).
  - destruct (Hother _ eq_refl eq_refl) as [(Hs & _) | (_ & _ & Hex)].
    + discriminate Hs.
    + exact Hex.
Defined.

(** C10, as the claim words it, fails in its last part: the return after a
    refused delete is a failure too, the entry is no directory, and
    [out_action] is not written either. *)
Lemma OpenFile_refused_delete_keeps_action :
  truthy (Z.land (attributes Mem.model Mem.world ["game"; "data"; "locked.bin"])
                 kFileAttributeDirectory) = false
  /\ OpenFile Mem.model Mem.paths 2 Mem.vfs None "d:\data\locked.bin"
              kSuperscede 1 false false Mem.world
     = Some {| status := X_STATUS_ACCESS_DENIED; out_file := None;
               out_action := None; world := Mem.world |}
  /\ XFAILED X_STATUS_ACCESS_DENIED = true.
Proof. repeat split. Qed.

(* ================================================================== *)
(** ** The extraction walker *)
(* ================================================================== *)

Module ExtractFacts.
Import Extract.

Lemma nodes_children (e : Entry) : nodes e = e :: nodes_of (children e).
Proof.
  destruct e as [n p a s o c m cs]. reflexivity.
Qed.

Lemma nodes_of_app (q1 q2 : list Entry) :
  nodes_of (q1 ++ q2) = (nodes_of q1 ++ nodes_of q2)%list.
Proof. apply flat_map_app. Qed.






Section Walk.

Variable H : Host.
Variable inner : nat.
Variable base_path : string.





End Walk.




Lemma bytes_written_app (t1 t2 : Trace) :
  bytes_written (t1 ++ t2)%list = bytes_written t1 + bytes_written t2.
Proof.
  unfold bytes_written. induction t1 as [| c t1 IH]; simpl; [reflexivity |].
  rewrite IH. ring.
Qed.

(** The copy through [ReadSync] adds to the counter what it writes. *)
Lemma copy_sync_progress (H : Host) (entry : Entry) (dest_name : string) :
  forall fuel remaining_size offset progress t progress' t',
    copy_sync H fuel entry dest_name remaining_size offset progress t
    = Some (progress', t') ->
    u64 progress' = u64 (progress + (bytes_written t' - bytes_written t)).
Proof.
  induction fuel as [| fuel IH];
    intros remaining_size offset progress t progress' t'; simpl;
    [discriminate |].
  destruct (remaining_size >? 0).
  - intros Hr. apply IH in Hr. rewrite Hr, bytes_written_app. simpl.
    unfold u64. rewrite Z.add_mod_idemp_l by lia. f_equal. ring.
  - intros [= <- <-]. f_equal. ring.
Qed.

(** The copy out of a mapped view writes, and nothing on that way touches
    the counter. *)
Lemma ExtractContentFile_mapped_keeps_progress (H : Host) (fuel : nat) (entry : Entry) (base_path : string) (progress : Z) (extract_to_root : bool) (t : Trace) (s : X_STATUS) (progress' : Z) (t' : Trace) :
  can_map entry = true ->
  ExtractContentFile H fuel entry base_path progress extract_to_root t
  = Some (s, progress', t') ->
  progress' = progress.
Proof.
  intros Hmap. unfold ExtractContentFile. rewrite Hmap.
  destruct (truthy (Z.land (attributes entry) kFileAttributeDirectory)).
  - destruct (truthy _); now intros [= _ <- _].
  - destruct (negb _); [now intros [= _ <- _] |].
    destruct (negb _); [now intros [= _ <- _] |].
    destruct (copy_mapped _ _ _ _ _); simpl; [| discriminate].
    now intros [= _ <- _].
Qed.

(** C6 on the code: a file of 4 MiB copied through its mapped view puts
    4194304 bytes into the destination and leaves the progress counter where
    it was, while the same file copied through [ReadSync] adds 4194304 to it;
    a directory adds nothing. *)
Theorem ExtractContentFile_mapped_progress :
  ExtractContentFile host 2 mapped "out" 0 false []
  = Some (X_STATUS_SUCCESS, 0,
          [OpenWb "out/mapped.bin";
           FwriteMapped "out/mapped.bin" 0 4194304;
           Fclose "out/mapped.bin"])
  /\ bytes_written [OpenWb "out/mapped.bin";
                    FwriteMapped "out/mapped.bin" 0 4194304;
                    Fclose "out/mapped.bin"] = 4194304
  /\ ExtractContentFile host 2 unmapped "out" 0 false []
     = Some (X_STATUS_SUCCESS, 4194304,
             [OpenWb "out/unmapped.bin";
              Fwrite "out/unmapped.bin" 4194304;
              Fclose "out/unmapped.bin"])
  /\ ExtractContentFile host 2 tree "out" 7 false []
     = Some (X_STATUS_SUCCESS, 7, [CreateDirectories "out/"]).
Proof. repeat split. Qed.

End ExtractFacts.

(* ================================================================== *)
(** ** More on the symbolic-link table *)
(* ================================================================== *)

Lemma find_if_index_first {A : Type} (f : A -> bool) (before after : list A) (x : A) :
  (forall y, In y before -> f y = false) ->
  f x = true ->
  find_if_index f (before ++ x :: after) = Some (List.length before).
Proof.
  intros Hbefore Hx. induction before as [| a before IH]; simpl.
  - now rewrite Hx.
  - rewrite (Hbefore a (or_introl eq_refl)), IH; [reflexivity |].
    intros y Hy. apply Hbefore. now right.
Qed.

Lemma find_if_index_none {A : Type} (f : A -> bool) (l : list A) :
  (forall y, In y l -> f y = false) -> find_if_index f l = None.
Proof.
  intros Hall. induction l as [| a l IH]; simpl; [reflexivity |].
  rewrite (Hall a (or_introl eq_refl)), IH; [reflexivity |].
  intros y Hy. apply Hall. now right.
Qed.

Lemma erase_at_middle {A : Type} (before after : list A) (x : A) :
  erase_at (List.length before) (before ++ x :: after) = (before ++ after)%list.
Proof.
  unfold erase_at.
  rewrite firstn_app, Nat.sub_diag, firstn_all, app_nil_r.
  replace (S (List.length before))
    with (List.length (before ++ [x])) by (rewrite length_app; simpl; lia).
  replace (before ++ x :: after)%list with ((before ++ [x]) ++ after)%list
    by (now rewrite <- app_assoc).
  rewrite skipn_app, skipn_all, Nat.sub_diag. reflexivity.
Qed.

(** X1.  [UnregisterSymbolicLink] removes the first link whose source is the
    argument up to case, keeps the others in their order and answers true;
    when no source is the argument up to case it answers false and the table
    is as before. *)
Theorem UnregisterSymbolicLink_first_up_to_case (symlinks_ : SymlinkTable) (path : string) :
  (forall before link after,
      symlinks_ = (before ++ link :: after)%list ->
      (forall x, In x before -> utf8.equal_case path (fst x) = false) ->
      utf8.equal_case path (fst link) = true ->
      UnregisterSymbolicLink symlinks_ path = (true, (before ++ after)%list))
  /\ ((forall x, In x symlinks_ -> utf8.equal_case path (fst x) = false) ->
      UnregisterSymbolicLink symlinks_ path = (false, symlinks_)).
Proof.
  unfold UnregisterSymbolicLink. split.
  - intros before link after -> Hbefore Hlink.
    rewrite (find_if_index_first _ before after link Hbefore Hlink).
    now rewrite erase_at_middle.
  - intros Hall. now rewrite find_if_index_none.
Qed.

Lemma UnregisterSymbolicLink_first_up_to_case_witness :
  UnregisterSymbolicLink [("game:", "\Device\Cdrom0"); ("d:", "game:");
                          ("D:", "cache:")] "D:"
  = (true, [("game:", "\Device\Cdrom0"); ("D:", "cache:")])
  /\ UnregisterSymbolicLink [("d:", "game:")] "e:" = (false, [("d:", "game:")]).
Proof.
  split.
  - destruct (UnregisterSymbolicLink_first_up_to_case
                [("game:", "\Device\Cdrom0"); ("d:", "game:"); ("D:", "cache:")]
                "D:") as (Hfound & _).
    apply (Hfound [("game:", "\Device\Cdrom0")] ("d:", "game:")
                  [("D:", "cache:")] eq_refl); [| reflexivity].
    intros x [<- | []]. reflexivity.
  - destruct (UnregisterSymbolicLink_first_up_to_case [("d:", "game:")] "e:")
      as (_ & Hmissing).
    apply Hmissing. intros x [<- | []]. reflexivity.
Defined.

(** X2.  A resolved path is resolved for good: resolving the result once more
    changes nothing and answers false. *)
Theorem ResolveSymbolicLink_idempotent (fuel : nat) (symlinks_ : SymlinkTable) (path : string) (was_resolved : bool) (result : string) :
  ResolveSymbolicLink fuel symlinks_ path = Some (was_resolved, result) ->
  ResolveSymbolicLink fuel symlinks_ result = Some (false, result)
  /\ FindSymbolicLink symlinks_ result = None.
Proof.
  intros Hr. destruct fuel as [| fuel]; [discriminate |].
  apply ResolveSymbolicLink_loop_rewrites in Hr as (n & _ & _ & Hstop & _).
  assert (Hf : find_symlink symlinks_ result = None).
  { unfold rewrite_once in Hstop.
    destruct (find_symlink symlinks_ result) as [[? ?] |];
      [discriminate | reflexivity]. }
  split; [now apply ResolveSymbolicLink_no_match |].
  unfold FindSymbolicLink. now rewrite Hf.
Qed.

Lemma ResolveSymbolicLink_idempotent_witness :
  ResolveSymbolicLink 3 [("d:", "game:"); ("game:", "\Device\Cdrom0")]
                      "\Device\Cdrom0\default.xex"
  = Some (false, "\Device\Cdrom0\default.xex")
  /\ FindSymbolicLink [("d:", "game:"); ("game:", "\Device\Cdrom0")]
                      "\Device\Cdrom0\default.xex" = None.
Proof.
  exact (ResolveSymbolicLink_idempotent 3
           [("d:", "game:"); ("game:", "\Device\Cdrom0")] "d:\default.xex"
           true "\Device\Cdrom0\default.xex" eq_refl).
Defined.

Lemma starts_with_case_app_left (s : string) :
  forall t x, utf8.starts_with_case t s = true ->
              utf8.starts_with_case (t ++ x) s = true.
Proof.
  induction s as [| c s IH]; intros t x; simpl; [reflexivity |].
  destruct t as [| d t]; [discriminate |]. simpl.
  rewrite !andb_true_iff. intros [Hc Hs]. split; [assumption | now apply IH].
Qed.

Lemma find_symlink_loops (symlinks_ : SymlinkTable) :
  every_target_matched symlinks_ = true ->
  forall fuel result was_resolved,
    find_symlink symlinks_ result <> None ->
    ResolveSymbolicLink_loop fuel symlinks_ result was_resolved = None.
Proof.
  intros Hclosed. unfold every_target_matched in Hclosed.
  rewrite forallb_forall in Hclosed.
  induction fuel as [| fuel IH]; intros result was_resolved Hm;
    [reflexivity |].
  simpl. destruct (find_symlink symlinks_ result) as [link |] eqn:Hf;
    [| congruence].
  apply IH. unfold find_symlink in Hf. apply find_some in Hf as [Hin _].
  specialize (Hclosed link Hin). apply existsb_exists in Hclosed
    as (s & Hs & Hmatch).
  intros Hnone. unfold find_symlink in Hnone.
  apply (find_none _ _ Hnone) in Hs. simpl in Hs.
  rewrite starts_with_case_app_left in Hs by assumption. discriminate.
Qed.

(** X3.  There is no cycle guard: on a table in which every target is under some
    source, the resolution of a path that matches a source does not return,
    however long it runs. *)
Theorem ResolveSymbolicLink_cycle_never_returns (symlinks_ : SymlinkTable) (path : string) :
  every_target_matched symlinks_ = true ->
  FindSymbolicLink symlinks_ path <> None ->
  forall fuel, ResolveSymbolicLink fuel symlinks_ path = None.
Proof.
  intros Hclosed Hfind fuel. unfold ResolveSymbolicLink.
  apply find_symlink_loops; [assumption |].
  intros Hnone. apply Hfind. unfold FindSymbolicLink. now rewrite Hnone.
Qed.

Lemma ResolveSymbolicLink_cycle_never_returns_witness :
  every_target_matched [("a:", "b:\x"); ("b:", "a:")] = true
  /\ FindSymbolicLink [("a:", "b:\x"); ("b:", "a:")] "A:\f" = Some "b:\x"
  /\ forall fuel,
       ResolveSymbolicLink fuel [("a:", "b:\x"); ("b:", "a:")] "A:\f" = None.
Proof.
  split; [reflexivity |]. split; [reflexivity |].
  apply (ResolveSymbolicLink_cycle_never_returns
           [("a:", "b:\x"); ("b:", "a:")] "A:\f" eq_refl).
  discriminate.
Defined.

(** X4.  [FindSymbolicLink] and [ResolveSymbolicLink] agree: one finds nothing
    exactly when the other returns the path unresolved, and what one finds
    is the target of the first rewrite of the other. *)
Theorem FindSymbolicLink_agrees (symlinks_ : SymlinkTable) (path : string) :
  (forall fuel,
      FindSymbolicLink symlinks_ path = None <->
      ResolveSymbolicLink (S fuel) symlinks_ path = Some (false, path))
  /\ (forall target,
         FindSymbolicLink symlinks_ path = Some target ->
         (exists source,
             utf8.starts_with_case path source = true
             /\ rewrite_once symlinks_ path
                = Some (target ++ substr path (String.length source)))
         /\ forall fuel was_resolved result,
             ResolveSymbolicLink fuel symlinks_ path
             = Some (was_resolved, result) ->
             was_resolved = true).
Proof.
  unfold FindSymbolicLink, ResolveSymbolicLink, rewrite_once. split.
  - intros fuel. simpl.
    destruct (find_symlink symlinks_ path) as [link |] eqn:Hf.
    + split; [discriminate |]. intros Hr.
      apply ResolveSymbolicLink_loop_rewrites in Hr as (n & _ & _ & _ & Hb).
      discriminate.
    + tauto.
  - intros target.
    destruct (find_symlink symlinks_ path) as [[source target'] |] eqn:Hf;
      [| discriminate].
    intros [= <-]. split.
    + exists source. split; [| reflexivity].
      unfold find_symlink in Hf. now apply find_some in Hf as [_ Hm].
    + intros fuel was_resolved result.
      destruct fuel as [| fuel]; [discriminate |]. simpl. rewrite Hf.
      intros Hr.
      apply ResolveSymbolicLink_loop_rewrites in Hr as (n & _ & _ & _ & ->).
      reflexivity.
Qed.

Lemma FindSymbolicLink_agrees_witness :
  ResolveSymbolicLink 1 [("d:", "game:")] "e:\x" = Some (false, "e:\x")
  /\ FindSymbolicLink [("d:", "game:")] "d:\x" = Some "game:"
  /\ rewrite_once [("d:", "game:")] "d:\x" = Some "game:\x".
Proof.
  destruct (FindSymbolicLink_agrees [("d:", "game:")] "e:\x") as (Hnone & _).
  destruct (FindSymbolicLink_agrees [("d:", "game:")] "d:\x") as (_ & Hsome).
  split; [exact (proj1 (Hnone 0%nat) eq_refl) |].
  split; [reflexivity |].
  destruct (Hsome "game:" eq_refl) as ((source & Hm & Hone) & _).
  reflexivity.
Defined.

(* ================================================================== *)
(** ** More on the device registry *)
(* ================================================================== *)

Section RegistryMore.

Context {Entry World File : Type}.
Variable E : EntryModel Entry World File.
Variable G : GuestPath.

Local Abbreviation Dev := (Device Entry World).
Local Abbreviation Vfs := (VirtualFileSystem Entry World).

Lemma find_device_app (devices extra : list Dev) (r : string) :
  find_device (devices ++ extra) r
  = match find_device devices r with
    | Some d => Some d
    | None => find_device extra r
    end.
Proof.
  unfold find_device. induction devices as [| a devices IH]; simpl;
    [reflexivity |].
  now destruct (utf8.starts_with r (mount_path a)).
Qed.

(** X5.  Registering a device always answers true, leaves the symbolic links
    alone and never takes a path away from a device that already had it:
    the new device only gets the paths that no device registered before it
    claims. *)
Theorem RegisterDevice_keeps_routing (fuel : nat) (vfs : Vfs) (device : Dev) (w : World) (path : string) (b : bool) (r : string) :
  ResolveSymbolicLink fuel (symlinks_ vfs) (canonicalize_guest_path G path)
  = Some (b, r) ->
  fst (RegisterDevice vfs device) = true
  /\ symlinks_ (snd (RegisterDevice vfs device)) = symlinks_ vfs
  /\ (find_device (devices_ vfs) r <> None ->
      ResolvePath G fuel (snd (RegisterDevice vfs device)) w path
      = ResolvePath G fuel vfs w path)
  /\ (find_device (devices_ vfs) r = None ->
      ResolvePath G fuel (snd (RegisterDevice vfs device)) w path
      = if utf8.starts_with r (mount_path device)
        then Some (DeviceResolvePath device w
                     (substr r (String.length (mount_path device))))
        else Some None).
Proof.
  intros Hr. split; [reflexivity |]. split; [reflexivity |].
  rewrite (ResolvePath_unfold G fuel vfs w path b r Hr).
  rewrite (ResolvePath_unfold G fuel (snd (RegisterDevice vfs device)) w path
             b r Hr).
  simpl. rewrite find_device_app. split.
  - destruct (find_device (devices_ vfs) r); [reflexivity | congruence].
  - intros ->. unfold find_device. simpl.
    now destruct (utf8.starts_with r (mount_path device)).
Qed.

(** X6.  Registering a device and unregistering its mount path gives back the
    registry as it was when no other device had that mount path; when an
    older device has the same mount path, it is the older one that goes and
    the new one that stays. *)
Theorem RegisterDevice_UnregisterDevice (vfs : Vfs) (device : Dev) :
  ((forall x, In x (devices_ vfs) -> mount_path x <> mount_path device) ->
   UnregisterDevice (snd (RegisterDevice vfs device)) (mount_path device)
   = (true, vfs))
  /\ (forall before older after,
         devices_ vfs = (before ++ older :: after)%list ->
         (forall x, In x before -> mount_path x <> mount_path device) ->
         mount_path older = mount_path device ->
         UnregisterDevice (snd (RegisterDevice vfs device))
                          (mount_path device)
         = (true, {| devices_ := (before ++ after ++ [device])%list;
                     symlinks_ := symlinks_ vfs |})).
Proof.
  destruct vfs as [devices symlinks]. unfold UnregisterDevice. simpl. split.
  - intros Hnone.
    rewrite (UnregisterDevice_loop_found (mount_path device) devices []
               device Hnone eq_refl).
    now rewrite app_nil_r.
  - intros before older after -> Hbefore Holder.
    rewrite <- app_assoc. simpl.
    rewrite (UnregisterDevice_loop_found (mount_path device) before
               (after ++ [device]) older Hbefore Holder).
    reflexivity.
Qed.

(** X7.  After [Clear] nothing resolves: [ResolvePath] gives null for every path,
    and [OpenFile] without a root entry fails for every path, disposition
    and access, with NoSuchFile or AccessDenied, hands out no file and
    leaves the world as it was. *)
Theorem Clear_resolves_nothing (fuel : nat) (vfs : Vfs) (w : World) (path : string) (disposition : FileDisposition) (desired_access : Z) (is_directory is_non_directory : bool) :
  (1 <= fuel)%nat ->
  devices_ (Clear vfs) = [] /\ symlinks_ (Clear vfs) = []
  /\ ResolvePath G fuel (Clear vfs) w path = Some None
  /\ exists r,
       OpenFile E G fuel (Clear vfs) None path disposition desired_access
                is_directory is_non_directory w = Some r
       /\ (status r = X_STATUS_NO_SUCH_FILE
           \/ status r = X_STATUS_ACCESS_DENIED)
       /\ out_file r = None
       /\ world r = w.
Proof.
  intros Hfuel. destruct fuel as [| fuel]; [lia |].
  assert (Hres : forall p, ResolvePath G (S fuel) (Clear vfs) w p = Some None)
    by reflexivity.
  split; [reflexivity |]. split; [reflexivity |]. split; [apply Hres |].
  unfold OpenFile, OpenFile_lookup, OpenFile_find.
  destruct (negb (String.eqb (find_base_guest_path G path) ""));
    rewrite Hres; cbn [bind].
  - eexists. split; [reflexivity |]. simpl. auto.
  - unfold OpenFile_dispose, CreatePath.
    destruct disposition; cbn [check_exists replace_entry];
      try (eexists; split; [reflexivity |]; simpl; now auto);
      destruct (split_path G path) as [| first rest];
      cbn [bind]; rewrite ?Hres; cbn [bind];
      eexists; (split; [reflexivity |]); simpl; auto.
Qed.

(** X8.  [DeletePath] fails and leaves the world alone when the path does not
    resolve (for one, when no device claims it) and when it resolves to an
    entry without a parent, a root; in every other case its answer and its
    effect are those of the parent's [Delete] of the entry. *)
Theorem DeletePath_outcomes (fuel : nat) (vfs : Vfs) (w : World) (path : string) (b : bool) (r : string) :
  ResolveSymbolicLink fuel (symlinks_ vfs) (canonicalize_guest_path G path)
  = Some (b, r) ->
  (find_device (devices_ vfs) r = None ->
   DeletePath E G fuel vfs path w = Some (false, w))
  /\ (ResolvePath G fuel vfs w path = Some None ->
      DeletePath E G fuel vfs path w = Some (false, w))
  /\ (forall entry,
         ResolvePath G fuel vfs w path = Some (Some entry) ->
         parent E w entry = None ->
         DeletePath E G fuel vfs path w = Some (false, w))
  /\ (forall entry p,
         ResolvePath G fuel vfs w path = Some (Some entry) ->
         parent E w entry = Some p ->
         DeletePath E G fuel vfs path w = Some (DeleteChild E p entry w)).
Proof.
  intros Hr. unfold DeletePath. repeat split.
  - intros Hnone. rewrite (ResolvePath_unfold G fuel vfs w path b r Hr), Hnone.
    reflexivity.
  - intros ->. reflexivity.
  - intros entry -> Hp. simpl. now rewrite Hp.
  - intros entry p -> Hp. simpl. now rewrite Hp.
Qed.

End RegistryMore.

Lemma RegisterDevice_keeps_routing_witness :
  let late := Mem.device "game:\data" "late" in
  ResolveSymbolicLink 2 (symlinks_ Mem.vfs) "d:\data\a.bin"
  = Some (true, "game:\data\a.bin")
  /\ find_device (devices_ Mem.vfs) "game:\data\a.bin" <> None
  /\ ResolvePath Mem.paths 2 (snd (RegisterDevice Mem.vfs late)) Mem.world
                 "d:\data\a.bin"
     = Some (Some ["game"; "data"; "a.bin"]).
Proof.
  intros late. split; [reflexivity |]. split; [discriminate |].
  destruct (RegisterDevice_keeps_routing Mem.paths 2 Mem.vfs late Mem.world
              "d:\data\a.bin" true "game:\data\a.bin" eq_refl)
    as (_ & _ & Hkeep & _).
  rewrite Hkeep; [reflexivity | discriminate].
Defined.

Lemma RegisterDevice_UnregisterDevice_witness :
  let cdrom := Mem.device "\Device\Cdrom0" "cdrom" in
  let again := Mem.device "game:" "again" in
  UnregisterDevice (snd (RegisterDevice Mem.vfs cdrom)) "\Device\Cdrom0"
  = (true, Mem.vfs)
  /\ UnregisterDevice (snd (RegisterDevice Mem.vfs again)) "game:"
     = (true, {| devices_ := [again]; symlinks_ := symlinks_ Mem.vfs |}).
Proof.
  intros cdrom again.
  destruct (RegisterDevice_UnregisterDevice Mem.vfs cdrom) as (Hback & _).
  destruct (RegisterDevice_UnregisterDevice Mem.vfs again) as (_ & Holder).
  split.
  - apply Hback. intros x [<- | []]. discriminate.
  - apply (Holder [] (Mem.device "game:" "game") [] eq_refl); [| reflexivity].
    intros x [].
Defined.

Lemma Clear_resolves_nothing_witness :
  ResolvePath Mem.paths 1 (Clear Mem.vfs) Mem.world "d:\data\a.bin" = Some None
  /\ exists r,
       OpenFile Mem.model Mem.paths 1 (Clear Mem.vfs) None "d:\data\a.bin"
                kOpenIf 1 false false Mem.world = Some r
       /\ (status r = X_STATUS_NO_SUCH_FILE
           \/ status r = X_STATUS_ACCESS_DENIED)
       /\ out_file r = None
       /\ world r = Mem.world.
Proof.
  destruct (Clear_resolves_nothing Mem.model Mem.paths 1 Mem.vfs Mem.world
              "d:\data\a.bin" kOpenIf 1 false false (le_n 1))
    as (_ & _ & Hres & Hopen).
  exact (conj Hres Hopen).
Defined.

Lemma DeletePath_outcomes_witness :
  ResolveSymbolicLink 2 (symlinks_ Mem.vfs) "d:"  = Some (true, "game:")
  /\ ResolvePath Mem.paths 2 Mem.vfs Mem.world "d:" = Some (Some ["game"])
  /\ parent Mem.model Mem.world ["game"] = None
  /\ DeletePath Mem.model Mem.paths 2 Mem.vfs "d:" Mem.world
     = Some (false, Mem.world)
  /\ DeletePath Mem.model Mem.paths 2 Mem.vfs "d:\data\a.bin" Mem.world
     = Some (true,
             [ (["game"], Mem.dir false);
               (["game"; "data"], Mem.dir false);
               (["game"; "data"; "locked.bin"],
                Mem.file false false X_STATUS_SUCCESS);
               (["game"; "data"; "broken.bin"],
                Mem.file false true X_STATUS_ACCESS_DENIED);
               (["game"; "data"; "ro.bin"],
                Mem.file true true X_STATUS_SUCCESS) ]).
Proof.
  split; [reflexivity |]. split; [reflexivity |]. split; [reflexivity |].
  destruct (DeletePath_outcomes Mem.model Mem.paths 2 Mem.vfs Mem.world "d:"
              true "game:" eq_refl) as (_ & _ & Hroot & _).
  destruct (DeletePath_outcomes Mem.model Mem.paths 2 Mem.vfs Mem.world
              "d:\data\a.bin" true "game:\data\a.bin" eq_refl)
    as (_ & _ & _ & Hchild).
  split.
  - exact (Hroot ["game"] eq_refl eq_refl).
  - exact (Hchild ["game"; "data"; "a.bin"] ["game"; "data"] eq_refl eq_refl).
Defined.

(* ================================================================== *)
(** ** More on the access mask *)
(* ================================================================== *)

Lemma truthy_land_pow2 (a k : Z) :
  0 <= k -> truthy (Z.land a (2 ^ k)) = Z.testbit a k.
Proof.
  intros Hk. unfold truthy.
  destruct (Z.testbit a k) eqn:Hbit.
  - apply negb_true_iff, Z.eqb_neq. intros H0.
    assert (Ht : Z.testbit (Z.land a (2 ^ k)) k = true)
      by (rewrite Z.land_spec, Hbit, Z.pow2_bits_true; auto).
    rewrite H0, Z.bits_0 in Ht. discriminate.
  - apply negb_false_iff, Z.eqb_eq. apply Z.bits_inj'. intros n Hn.
    rewrite Z.land_spec, Z.bits_0, Z.pow2_bits_eqb by assumption.
    destruct (Z.eqb_spec k n) as [<- | _];
      [now rewrite Hbit | apply andb_false_r].
Qed.

(** The bits of a cleaned-up access: those of the request, read-data when
    generic read or generic all is asked, write-data when generic write or
    generic all is asked. *)
Lemma cleanup_access_bits (a n : Z) :
  0 <= n ->
  Z.testbit (cleanup_access a) n
  = Z.testbit a n
    || ((n =? 0) && (Z.testbit a 31 || Z.testbit a 28))
    || ((n =? 1) && (Z.testbit a 30 || Z.testbit a 28)).
Proof.
  intros Hn. unfold cleanup_access.
  change FileAccess.kGenericRead with (2 ^ 31).
  change FileAccess.kGenericWrite with (2 ^ 30).
  change FileAccess.kGenericAll with (2 ^ 28).
  change FileAccess.kFileReadData with (2 ^ 0).
  change FileAccess.kFileWriteData with (2 ^ 1).
  rewrite (truthy_land_pow2 a 31) by lia.
  set (a1 := if Z.testbit a 31 then Z.lor a (2 ^ 0) else a).
  assert (H1 : forall j, 0 <= j ->
            Z.testbit a1 j = Z.testbit a j || ((j =? 0) && Z.testbit a 31)).
  { intros j Hj. subst a1. destruct (Z.testbit a 31).
    - rewrite Z.lor_spec, Z.pow2_bits_eqb by lia.
      rewrite (Z.eqb_sym 0 j). now rewrite andb_true_r.
    - now rewrite andb_false_r, orb_false_r. }
  rewrite (truthy_land_pow2 a1 30), (H1 30) by lia.
  change (30 =? 0) with false. cbn [andb]. rewrite orb_false_r.
  set (a2 := if Z.testbit a 30 then Z.lor a1 (2 ^ 1) else a1).
  assert (H2 : forall j, 0 <= j ->
            Z.testbit a2 j = Z.testbit a1 j || ((j =? 1) && Z.testbit a 30)).
  { intros j Hj. subst a2. destruct (Z.testbit a 30).
    - rewrite Z.lor_spec, Z.pow2_bits_eqb by lia.
      rewrite (Z.eqb_sym 1 j). now rewrite andb_true_r.
    - now rewrite andb_false_r, orb_false_r. }
  rewrite (truthy_land_pow2 a2 28), (H2 28), (H1 28) by lia.
  change (28 =? 0) with false. change (28 =? 1) with false.
  cbn [andb]. rewrite !orb_false_r.
  destruct (Z.testbit a 28).
  - rewrite !Z.lor_spec, !Z.pow2_bits_eqb, H2, H1 by lia.
    rewrite (Z.eqb_sym 0 n), (Z.eqb_sym 1 n).
    destruct (Z.testbit a n), (n =? 0), (n =? 1), (Z.testbit a 31),
      (Z.testbit a 30); reflexivity.
  - rewrite H2, H1 by lia.
    destruct (Z.testbit a n), (n =? 0), (n =? 1), (Z.testbit a 31),
      (Z.testbit a 30); reflexivity.
Qed.

(** X9.  Which requests end up asking for write: after the clean-up of the
    generic flags, a request wants write exactly when it has the write-data
    or append-data flag or one of the generic flags for write or for
    everything.  The clean-up removes no flag, adds at most read-data and
    write-data, and a second clean-up adds nothing more. *)
Theorem cleanup_access_wants_write (desired_access : Z) :
  wants_write (cleanup_access desired_access)
  = (truthy (Z.land desired_access FileAccess.kFileWriteData)
     || truthy (Z.land desired_access FileAccess.kFileAppendData)
     || truthy (Z.land desired_access FileAccess.kGenericWrite)
     || truthy (Z.land desired_access FileAccess.kGenericAll))
  /\ Z.lor (cleanup_access desired_access)
           (Z.lor FileAccess.kFileReadData FileAccess.kFileWriteData)
     = Z.lor desired_access
             (Z.lor FileAccess.kFileReadData FileAccess.kFileWriteData)
  /\ Z.land (cleanup_access desired_access) desired_access = desired_access
  /\ cleanup_access (cleanup_access desired_access)
     = cleanup_access desired_access.
Proof.
  set (a := desired_access).
  split; [| split; [| split]].
  - unfold wants_write.
    change FileAccess.kGenericWrite with (2 ^ 30).
    change FileAccess.kGenericAll with (2 ^ 28).
    change FileAccess.kFileWriteData with (2 ^ 1).
    change FileAccess.kFileAppendData with (2 ^ 2).
    rewrite !truthy_land_pow2, !cleanup_access_bits by lia.
    change (1 =? 0) with false. change (1 =? 1) with true.
    change (2 =? 0) with false. change (2 =? 1) with false.
    destruct (Z.testbit a 1), (Z.testbit a 2), (Z.testbit a 30),
      (Z.testbit a 28), (Z.testbit a 31); reflexivity.
  - change (Z.lor FileAccess.kFileReadData FileAccess.kFileWriteData)
      with (Z.lor (2 ^ 0) (2 ^ 1)).
    apply Z.bits_inj'. intros n Hn.
    rewrite !Z.lor_spec, !Z.pow2_bits_eqb, cleanup_access_bits by lia.
    rewrite (Z.eqb_sym 0 n), (Z.eqb_sym 1 n).
    destruct (Z.testbit a n), (n =? 0), (n =? 1), (Z.testbit a 31),
      (Z.testbit a 30), (Z.testbit a 28); reflexivity.
  - apply Z.bits_inj'. intros n Hn.
    rewrite Z.land_spec, cleanup_access_bits by lia.
    destruct (Z.testbit a n), (n =? 0), (n =? 1), (Z.testbit a 31),
      (Z.testbit a 30), (Z.testbit a 28); reflexivity.
  - apply Z.bits_inj'. intros n Hn.
    rewrite !cleanup_access_bits by lia.
    change (31 =? 0) with false. change (31 =? 1) with false.
    change (30 =? 0) with false. change (30 =? 1) with false.
    change (28 =? 0) with false. change (28 =? 1) with false.
    destruct (Z.testbit a n), (n =? 0), (n =? 1), (Z.testbit a 31),
      (Z.testbit a 30), (Z.testbit a 28); reflexivity.
Qed.

(* ================================================================== *)
(** ** More on opening files *)
(* ================================================================== *)

Section OpenMore.

Context {Entry World File : Type}.
Variable E : EntryModel Entry World File.
Variable G : GuestPath.

Local Abbreviation Vfs := (VirtualFileSystem Entry World).
Local Abbreviation Result := (OpenResult File World).

(** X10.  [OpenFile] creates no missing parent: when the path has a parent part
    and the parent does not resolve, every disposition fails with
    NoSuchFile and action DoesNotExist, and nothing is created. *)
Theorem OpenFile_missing_parent (fuel : nat) (vfs : Vfs) (root_entry : option Entry) (path : string) (disposition : FileDisposition) (desired_access : Z) (is_directory is_non_directory : bool) (w : World) :
  find_base_guest_path G path <> "" ->
  match root_entry with
  | None => ResolvePath G fuel vfs w (find_base_guest_path G path)
  | Some root =>
      Some (EntryResolvePath E w root (find_base_guest_path G path))
  end = Some None ->
  OpenFile E G fuel vfs root_entry path disposition desired_access
           is_directory is_non_directory w
  = Some {| status := X_STATUS_NO_SUCH_FILE; out_file := None;
            out_action := Some kDoesNotExist; world := w |}.
Proof.
  intros Hbase Hparent. apply String.eqb_neq in Hbase.
  unfold OpenFile, OpenFile_lookup, OpenFile_find.
  rewrite Hbase. cbn [negb]. now rewrite Hparent.
Qed.

Lemma check_exists_fails (disposition : FileDisposition) (entry : option Entry) (s : X_STATUS) (a : FileAction) :
  check_exists disposition entry = Some (s, a) -> XSUCCEEDED s = false.
Proof.
  unfold check_exists.
  destruct disposition, entry; try discriminate; now intros [= <- _].
Qed.

Lemma replace_entry_return (disposition : FileDisposition) (entry : option Entry) (w1 w2 : World) (s : X_STATUS) :
  replace_entry E disposition entry w1 = inl (s, w2) ->
  XSUCCEEDED s = false.
Proof.
  unfold replace_entry.
  destruct entry as [e |]; [| discriminate].
  destruct disposition; try discriminate;
    try (destruct (Delete E e w1) as [[|] w3]); try discriminate;
    now intros [= <- _].
Qed.

Lemma replace_entry_action (disposition : FileDisposition) (entry next : option Entry) (w1 w2 : World) (action : FileAction) :
  check_exists disposition entry = None ->
  replace_entry E disposition entry w1 = inr (next, action, w2) ->
  action_fits disposition entry action.
Proof.
  unfold check_exists, replace_entry, action_fits.
  destruct entry as [e |], disposition; try discriminate; intros _;
    try (destruct (Delete E e w1) as [[|] w3]); try discriminate;
    intros [= _ <- _]; repeat split; auto; discriminate.
Qed.

Lemma open_entry_success (e : Entry) (a : Z) (action : FileAction) (w2 : World) :
  XSUCCEEDED (status (open_entry E e a action w2)) = true ->
  Open E e a w2
  = (status (open_entry E e a action w2),
     out_file (open_entry E e a action w2),
     world (open_entry E e a action w2))
  /\ out_action (open_entry E e a action w2) = Some action.
Proof.
  unfold open_entry. destruct (Open E e a w2) as [[s f] w3]. cbn.
  intros Hs. split; [reflexivity |]. unfold XFAILED. now rewrite Hs.
Qed.

Lemma OpenFile_dispose_success (fuel : nat) (vfs : Vfs) (path : string) (disposition : FileDisposition) (desired_access : Z) (is_directory : bool) (parent_entry entry : option Entry) (w1 : World) (r : Result) :
  OpenFile_dispose E G fuel vfs path disposition desired_access is_directory
                   parent_entry entry w1 = Some r ->
  XSUCCEEDED (status r) = true ->
  (exists e access w2, Open E e access w2 = (status r, out_file r, world r))
  /\ exists action,
       out_action r = Some action /\ action_fits disposition entry action.
Proof.
  unfold OpenFile_dispose.
  destruct (check_exists disposition entry) as [[s a] |] eqn:Hc.
  - intros [= <-] Hs. cbn in Hs.
    rewrite (check_exists_fails _ _ _ _ Hc) in Hs. discriminate.
  - destruct (replace_entry E disposition entry w1)
      as [[s w2] | [[next action] w2]] eqn:Hrep.
    + intros [= <-] Hs. cbn in Hs.
      rewrite (replace_entry_return _ _ _ _ _ Hrep) in Hs. discriminate.
    + pose proof (replace_entry_action _ _ _ _ _ _ Hc Hrep) as Hfit.
      destruct next as [e |].
      * intros [= <-] Hs. apply open_entry_success in Hs as [HO Ha].
        split; [eauto |]. now exists action.
      * destruct (CreatePath E G fuel vfs path _ w2) as [[[e |] w3] |];
          cbn [bind]; [| | discriminate].
        -- intros [= <-] Hs. apply open_entry_success in Hs as [HO Ha].
           split; [eauto |]. now exists action.
        -- intros [= <-] Hs. cbn in Hs. discriminate.
Qed.

(** X11.  A successful [OpenFile] got its status and its file from the entry's
    own [Open], and reports Opened, Created, Overwritten or Superseded in
    line with the disposition: Opened only under Open or OpenIf, Created
    never under Open or Overwrite, Overwritten only under Overwrite or
    OverwriteIf, Superseded only under Supersede.  Exists and DoesNotExist
    never come with a success. *)
Theorem OpenFile_success_action (fuel : nat) (vfs : Vfs) (root_entry : option Entry) (path : string) (disposition : FileDisposition) (desired_access : Z) (is_directory is_non_directory : bool) (w : World) (r : Result) :
  OpenFile E G fuel vfs root_entry path disposition desired_access
           is_directory is_non_directory w = Some r ->
  XSUCCEEDED (status r) = true ->
  (exists e access w2, Open E e access w2 = (status r, out_file r, world r))
  /\ (out_action r = Some kOpened
      /\ (disposition = kOpen \/ disposition = kOpenIf)
      \/ out_action r = Some kCreated
         /\ disposition <> kOpen /\ disposition <> kOverwrite
      \/ out_action r = Some kOverwritten
         /\ (disposition = kOverwrite \/ disposition = kOverwriteIf)
      \/ out_action r = Some kSuperseded /\ disposition = kSuperscede).
Proof.
  intros Hr Hs. unfold OpenFile in Hr.
  destruct (OpenFile_lookup E G fuel vfs root_entry path is_non_directory w)
    as [[s a w1 | parent_entry entry w1] |] eqn:Hl; cbn [bind] in Hr;
    [| | discriminate].
  - injection Hr as <-. cbn [status] in Hs.
    apply OpenFile_lookup_return in Hl as (_ & [[-> _] | (-> & _)]);
      vm_compute in Hs; discriminate.
  - destruct (OpenFile_dispose_success _ _ _ _ _ _ _ _ _ _ Hr Hs)
      as (Hex & action & Ha & Hfit).
    split; [exact Hex |]. rewrite Ha.
    destruct action; cbn in Hfit; [| | | | contradiction | contradiction].
    + do 3 right. split; [reflexivity | apply Hfit].
    + left. split; [reflexivity | apply Hfit].
    + right. left. split; [reflexivity |]. split; apply Hfit.
    + do 2 right. left. split; [reflexivity | apply Hfit].
Qed.


(** X13.  With a root entry the lookup is relative to it, but a missing entry is
    created through [CreatePath] on the path as it stands, from the
    registered devices: when the first segment of the path does not resolve
    there, or the path has no segment, the call fails with AccessDenied
    after action Created was written, and nothing is created. *)
Theorem OpenFile_relative_create_is_global (fuel : nat) (vfs : Vfs) (root : Entry) (path : string) (disposition : FileDisposition) (desired_access : Z) (is_directory is_non_directory : bool) (w w1 : World) (parent_entry : option Entry) :
  OpenFile_lookup E G fuel vfs (Some root) path is_non_directory w
  = Some (LookupDone parent_entry None w1) ->
  disposition <> kOpen -> disposition <> kOverwrite ->
  match split_path G path with
  | [] => True
  | first :: _ => ResolvePath G fuel vfs w1 first = Some None
  end ->
  OpenFile E G fuel vfs (Some root) path disposition desired_access
           is_directory is_non_directory w
  = Some {| status := X_STATUS_ACCESS_DENIED; out_file := None;
            out_action := Some kCreated; world := w1 |}.
Proof.
  intros Hl Ho Hw Hfirst.
  rewrite (OpenFile_after_lookup E G _ _ _ _ disposition desired_access
             is_directory _ _ _ _ _ Hl).
  unfold OpenFile_dispose, CreatePath.
  destruct (split_path G path) as [| first rest];
    destruct disposition; try congruence;
    cbn [check_exists replace_entry bind nth]; rewrite ?Hfirst;
    reflexivity.
Qed.

End OpenMore.

Lemma OpenFile_missing_parent_witness :
  find_base_guest_path Mem.paths "d:\nowhere\x.bin" <> ""
  /\ ResolvePath Mem.paths 2 Mem.vfs Mem.world "d:\nowhere" = Some None
  /\ OpenFile Mem.model Mem.paths 2 Mem.vfs None "d:\nowhere\x.bin" kCreate 3
              false false Mem.world
     = Some {| status := X_STATUS_NO_SUCH_FILE; out_file := None;
               out_action := Some kDoesNotExist; world := Mem.world |}.
Proof.
  split; [discriminate |]. split; [reflexivity |].
  apply (OpenFile_missing_parent Mem.model Mem.paths 2 Mem.vfs None
           "d:\nowhere\x.bin" kCreate 3 false false Mem.world);
    [discriminate | reflexivity].
Defined.

Lemma OpenFile_success_action_witness :
  (exists e access w2,
      Open Mem.model e access w2
      = (X_STATUS_SUCCESS, Some (["game"; "data"; "new.bin"], 3),
         (Mem.world ++ [(["game"; "data"; "new.bin"],
                         Mem.fresh kFileAttributeNormal)])%list))
  /\ (Some kCreated = Some kOpened /\ (kOpenIf = kOpen \/ kOpenIf = kOpenIf)
      \/ Some kCreated = Some kCreated /\ kOpenIf <> kOpen
         /\ kOpenIf <> kOverwrite
      \/ Some kCreated = Some kOverwritten
         /\ (kOpenIf = kOverwrite \/ kOpenIf = kOverwriteIf)
      \/ Some kCreated = Some kSuperseded /\ kOpenIf = kSuperscede).
Proof.
  exact (OpenFile_success_action Mem.model Mem.paths 2 Mem.vfs None
           "d:\data\new.bin" kOpenIf 3 false false Mem.world
           {| status := X_STATUS_SUCCESS;
              out_file := Some (["game"; "data"; "new.bin"], 3);
              out_action := Some kCreated;
              world := (Mem.world ++ [(["game"; "data"; "new.bin"],
                                       Mem.fresh kFileAttributeNormal)])%list |}
           eq_refl eq_refl).
Defined.


Lemma OpenFile_relative_create_is_global_witness :
  OpenFile_lookup Mem.model Mem.paths 2 Mem.vfs (Some ["game"; "data"])
                  "new.bin" false Mem.world
  = Some (LookupDone None None Mem.world)
  /\ ResolvePath Mem.paths 2 Mem.vfs Mem.world "new.bin" = Some None
  /\ OpenFile Mem.model Mem.paths 2 Mem.vfs (Some ["game"; "data"]) "new.bin"
              kOpenIf 3 false false Mem.world
     = Some {| status := X_STATUS_ACCESS_DENIED; out_file := None;
               out_action := Some kCreated; world := Mem.world |}.
Proof.
  split; [reflexivity |]. split; [reflexivity |].
  apply (OpenFile_relative_create_is_global Mem.model Mem.paths 2 Mem.vfs
           ["game"; "data"] "new.bin" kOpenIf 3 false false Mem.world
           Mem.world None eq_refl); [discriminate | discriminate |].
  reflexivity.
Defined.

(* ================================================================== *)
(** ** More on path creation *)
(* ================================================================== *)

Section CreationMore.

Context {Entry World File : Type}.
Variable E : EntryModel Entry World File.
Variable G : GuestPath.

Local Abbreviation Vfs := (VirtualFileSystem Entry World).

(** X14.  [CreatePath] does not undo what it has created: when a missing middle
    directory is created and the creation of the last segment under it is
    then refused, the result is null and the world is the one with the new
    directory in it. *)
Theorem CreatePath_no_rollback (fuel : nat) (vfs : Vfs) (path : string) (attrs : Z) (w w1 w2 : World) (first middle last : string) (root created : Entry) :
  split_path G path = [first; middle; last] ->
  ResolvePath G fuel vfs w first = Some (Some root) ->
  ResolvePath G fuel vfs w (join_guest_paths G first middle) = Some None ->
  CreateEntry E root middle kFileAttributeDirectory w = (Some created, w1) ->
  CreateEntry E created last attrs w1 = (None, w2) ->
  CreatePath E G fuel vfs path attrs w = Some (None, w2).
Proof.
  intros Hparts Hroot Hmiddle Hdir Hlast.
  unfold CreatePath. rewrite Hparts. cbn [nth List.length Nat.sub].
  rewrite Hroot. cbn [bind CreatePath_loop nth].
  rewrite Hmiddle. cbn [bind]. rewrite Hdir. cbn [bind]. now rewrite Hlast.
Qed.

End CreationMore.

Lemma CreatePath_no_rollback_witness :
  let w1 := (Mem.world ++ [(["game"; "new"],
                            Mem.fresh kFileAttributeDirectory)])%list in
  CreatePath (Mem.quota_model 7) Mem.paths 2 Mem.vfs "d:\new\x.bin"
             kFileAttributeNormal Mem.world
  = Some (None, w1)
  /\ GetChild (Mem.quota_model 7) Mem.world ["game"] "new" = None
  /\ GetChild (Mem.quota_model 7) w1 ["game"] "new" = Some ["game"; "new"].
Proof.
  intros w1. split; [| split; reflexivity].
  apply (CreatePath_no_rollback (Mem.quota_model 7) Mem.paths 2 Mem.vfs
           "d:\new\x.bin" kFileAttributeNormal Mem.world w1 w1
           "d:" "new" "x.bin" ["game"] ["game"; "new"]); reflexivity.
Defined.

(* ================================================================== *)
(** ** More on the extraction of one entry *)
(* ================================================================== *)

Module ExtractMore.
Import Extract.

Lemma bytes_written_snoc (t : Trace) (c : HostCall) :
  bytes_written (t ++ [c])%list = bytes_written t + bytes_of c.
Proof. rewrite ExtractFacts.bytes_written_app. simpl. ring. Qed.

Lemma write_buffer_size_divides : (write_buffer_size | 2 ^ 64).
Proof. exists (2 ^ 42). reflexivity. Qed.

(** X15.  A failed extraction has copied nothing: whenever [ExtractContentFile]
    returns a status other than 0, the progress counter is where it was and
    no byte was written. *)
Theorem ExtractContentFile_failure_copies_nothing (H : Host) (fuel : nat) (entry : Entry) (base_path : string) (progress : Z) (extract_to_root : bool) (t : Trace) (s : X_STATUS) (progress' : Z) (t' : Trace) :
  ExtractContentFile H fuel entry base_path progress extract_to_root t
  = Some (s, progress', t') ->
  s <> 0 ->
  progress' = progress /\ bytes_written t' = bytes_written t.
Proof.
  unfold ExtractContentFile.
  destruct (truthy (Z.land (attributes entry) kFileAttributeDirectory)).
  - destruct (truthy _); intros [= <- <- <-] Hs; [| congruence].
    now rewrite bytes_written_snoc, Z.add_0_r.
  - destruct (negb _); [now intros [= <- <- <-] |].
    destruct (negb _).
    + intros [= <- <- <-] _. now rewrite bytes_written_snoc, Z.add_0_r.
    + destruct (can_map entry).
      * destruct (copy_mapped _ _ _ _ _); cbn [bind]; [| discriminate].
        intros [= <- _ _]. congruence.
      * destruct (copy_sync _ _ _ _ _ _ _ _) as [[p t0] |]; cbn [bind];
          [| discriminate].
        intros [= <- _ _]. congruence.
Qed.

Lemma ExtractContentFile_sync_progress (H : Host) (fuel : nat) (entry : Entry) (base_path : string) (progress : Z) (extract_to_root : bool) (t : Trace) (s : X_STATUS) (progress' : Z) (t' : Trace) :
  can_map entry = false ->
  ExtractContentFile H fuel entry base_path progress extract_to_root t
  = Some (s, progress', t') ->
  u64 progress' = u64 (progress + (bytes_written t' - bytes_written t)).
Proof.
  intros Hmap. unfold ExtractContentFile. rewrite Hmap.
  destruct (truthy (Z.land (attributes entry) kFileAttributeDirectory)).
  - destruct (truthy _); intros [= _ <- <-];
      rewrite bytes_written_snoc; f_equal; simpl; ring.
  - destruct (negb _); [intros [= _ <- <-]; f_equal; ring |].
    destruct (negb _).
    + intros [= _ <- <-]. rewrite bytes_written_snoc. f_equal. simpl. ring.
    + destruct (copy_sync _ _ _ _ _ _ _ _) as [[p t0] |] eqn:Hc; cbn [bind];
        [| discriminate].
      intros [= _ <- <-]. apply ExtractFacts.copy_sync_progress in Hc.
      rewrite Hc, !bytes_written_snoc. f_equal. simpl. ring.
Qed.

(** X16.  Through [ReadSync] the progress counter counts what is written: for an
    entry that cannot be mapped, the counter grows by the number of bytes
    written by the call (modulo 2^64). *)
Theorem ExtractContentFile_sync_counts (H : Host) (fuel : nat) (entry : Entry) (base_path : string) (progress : Z) (extract_to_root : bool) (t : Trace) (s : X_STATUS) (progress' : Z) (t' : Trace) :
  can_map entry = false ->
  ExtractContentFile H fuel entry base_path progress extract_to_root t
  = Some (s, progress', t') ->
  u64 progress' = u64 (progress + (bytes_written t' - bytes_written t)).
Proof.
  intros Hmap Hrun.
  exact (ExtractContentFile_sync_progress H fuel entry base_path progress
           extract_to_root t s progress' t' Hmap Hrun).
Qed.

Lemma bytes_written_buffers_from (dest_name : string) :
  forall k j,
    bytes_written (buffers_from dest_name j k)
    = Z.of_nat k * write_buffer_size.
Proof.
  unfold buffers_from.
  induction k as [| k IH]; intros j; [reflexivity |].
  cbn [seq map]. change (bytes_written (?c :: ?l))
    with (bytes_of c + bytes_written l).
  rewrite IH, Nat2Z.inj_succ. cbn [bytes_of]. ring.
Qed.

Lemma buffers_from_in_view (dest_name : string) (k : nat) :
  Forall (in_view (Z.of_nat k * write_buffer_size))
         (buffers_from dest_name 0 k).
Proof.
  apply Forall_forall. intros c Hc. unfold buffers_from in Hc.
  apply in_map_iff in Hc as (i & <- & Hi). apply in_seq in Hi.
  assert (Hw : 0 < write_buffer_size) by reflexivity.
  cbn [in_view]. split; [lia |].
  replace (Z.of_nat i * write_buffer_size + write_buffer_size)
    with (Z.of_nat (S i) * write_buffer_size)
    by (rewrite Nat2Z.inj_succ; ring).
  apply Z.mul_le_mono_nonneg_r; lia.
Qed.

(** Within 2 GiB the [int] offset does not wrap: the loop writes the
    buffers one after the other, each from its own place in the view. *)
Lemma copy_mapped_buffers (dest_name : string) :
  forall k fuel j t,
    (k < fuel)%nat ->
    Z.of_nat (j + k) * write_buffer_size <= 2 ^ 31 ->
    copy_mapped fuel dest_name (Z.of_nat k * write_buffer_size)
                (Z.of_nat j * write_buffer_size) t
    = Some (t ++ buffers_from dest_name j k)%list.
Proof.
  assert (Hw : write_buffer_size = 4194304) by reflexivity.
  induction k as [| k IH]; intros fuel j t Hfuel Hsize;
    (destruct fuel as [| fuel]; [lia |]).
  - cbn. now rewrite app_nil_r.
  - cbn [copy_mapped].
    assert (Hpos : (Z.of_nat (S k) * write_buffer_size >? 0) = true)
      by (apply Z.gtb_lt; lia).
    rewrite Hpos.
    replace (u64 (Z.of_nat (S k) * write_buffer_size - write_buffer_size))
      with (Z.of_nat k * write_buffer_size)
      by (unfold u64; rewrite Z.mod_small; lia).
    unfold buffers_from. cbn [seq map]. fold (buffers_from dest_name (S j) k).
    replace (t ++ FwriteMapped dest_name (Z.of_nat j * write_buffer_size)
                   write_buffer_size :: buffers_from dest_name (S j) k)%list
      with ((t ++ [FwriteMapped dest_name (Z.of_nat j * write_buffer_size)
                     write_buffer_size]) ++ buffers_from dest_name (S j) k)%list
      by (now rewrite <- app_assoc).
    destruct k as [| k].
    + destruct fuel as [| fuel]; [lia |]. cbn. now rewrite app_nil_r.
    + replace (i32 (Z.of_nat j * write_buffer_size + write_buffer_size))
        with (Z.of_nat (S j) * write_buffer_size)
        by (unfold i32; rewrite Z.mod_small; lia).
      apply IH; lia.
Qed.

Lemma copy_mapped_never_returns (dest_name : string) :
  forall fuel remaining_size offset t,
    0 <= remaining_size < 2 ^ 64 ->
    remaining_size mod write_buffer_size <> 0 ->
    copy_mapped fuel dest_name remaining_size offset t = None.
Proof.
  induction fuel as [| fuel IH]; intros remaining_size offset t Hrange Hmod;
    [reflexivity |].
  cbn [copy_mapped].
  assert (Hpos : (remaining_size >? 0) = true).
  { apply Z.gtb_lt. destruct (Z.eq_dec remaining_size 0) as [-> | ?];
      [now rewrite Z.mod_0_l in Hmod by (unfold write_buffer_size; lia) | lia]. }
  rewrite Hpos. apply IH.
  - unfold u64. apply Z.mod_pos_bound. lia.
  - unfold u64.
    rewrite (Z.mod_mod_divide _ _ _ write_buffer_size_divides).
    replace (remaining_size - write_buffer_size)
      with (remaining_size + (-1) * write_buffer_size) by ring.
    rewrite Z.mod_add by (unfold write_buffer_size; lia). exact Hmod.
Qed.

(** X17.  The copy out of a mapped view ends only on whole buffers.  When the
    size of the view is a multiple of 4 MiB and at most 2 GiB (so that the
    [int] offset does not wrap), the call returns 0 after one write of
    4 MiB per buffer, each at its own offset inside the view, that many
    bytes in all, and the progress counter is as before; when the size is
    not a multiple of 4 MiB, the count of what remains wraps around below
    zero and never reaches it: the loop has no end. *)
Theorem ExtractContentFile_mapped_whole_buffers_only (H : Host) (entry : Entry) (base_path : string) (progress : Z) (extract_to_root : bool) (t : Trace) :
  truthy (Z.land (attributes entry) kFileAttributeDirectory) = false ->
  open_status entry = X_STATUS_SUCCESS ->
  can_map entry = true ->
  (forall dest_name, open_wb H t dest_name = true) ->
  0 <= map_size entry < 2 ^ 64 ->
  let dest :=
    if extract_to_root then dest_of_name H base_path (name entry)
    else dest_of_path H base_path (path entry) in
  (forall k fuel,
      map_size entry = Z.of_nat k * write_buffer_size ->
      map_size entry <= 2 ^ 31 ->
      (k < fuel)%nat ->
      ExtractContentFile H fuel entry base_path progress extract_to_root t
      = Some (0, progress,
              ((t ++ [OpenWb dest]) ++ buffers_from dest 0 k)
                ++ [Fclose dest])%list
      /\ Forall (in_view (map_size entry)) (buffers_from dest 0 k)
      /\ bytes_written (buffers_from dest 0 k) = map_size entry)
  /\ (map_size entry mod write_buffer_size <> 0 ->
      forall fuel,
        ExtractContentFile H fuel entry base_path progress extract_to_root t
        = None).
Proof.
  intros Hdir Hopen Hmap Hwb Hrange dest.
  unfold ExtractContentFile. rewrite Hdir, Hopen, Hmap, Hwb. cbn [negb Z.eqb].
  change (X_STATUS_SUCCESS =? X_STATUS_SUCCESS) with true. cbn [negb].
  fold dest. split.
  - intros k fuel Hk Hsmall Hfuel. rewrite Hk in *.
    pose proof (copy_mapped_buffers dest k fuel 0 (t ++ [OpenWb dest])%list
                  Hfuel Hsmall) as Hrun.
    change (Z.of_nat 0 * write_buffer_size) with 0 in Hrun.
    rewrite Hrun. cbn [bind]. split; [reflexivity |].
    split; [apply buffers_from_in_view | apply bytes_written_buffers_from].
  - intros Hmod fuel. now rewrite copy_mapped_never_returns.
Qed.

Lemma copy_sync_never_returns (H : Host) (entry : Entry) (dest_name : string) :
  forall fuel remaining_size offset progress t,
    0 < remaining_size < 2 ^ 64 ->
    0 <= offset < 2 ^ 64 ->
    ReadSync H entry offset write_buffer_size = 0 ->
    copy_sync H fuel entry dest_name remaining_size offset progress t = None.
Proof.
  induction fuel as [| fuel IH];
    intros remaining_size offset progress t Hrem Hoff Hread; [reflexivity |].
  cbn [copy_sync].
  assert (Hpos : (remaining_size >? 0) = true) by (apply Z.gtb_lt; lia).
  rewrite Hpos, Hread.
  replace (u64 (remaining_size - 0)) with remaining_size
    by (unfold u64; rewrite Z.sub_0_r, Z.mod_small; lia).
  replace (u64 (offset + 0)) with offset
    by (unfold u64; rewrite Z.add_0_r, Z.mod_small; lia).
  now apply IH.
Qed.

(** X18.  A read that delivers nothing is not noticed: for a file of positive
    size that cannot be mapped, when [ReadSync] at offset 0 gives no byte
    the copy asks again at the same offset for ever, and the call does not
    return. *)
Theorem ExtractContentFile_empty_read_never_returns (H : Host) (entry : Entry) (base_path : string) (progress : Z) (extract_to_root : bool) (t : Trace) :
  truthy (Z.land (attributes entry) kFileAttributeDirectory) = false ->
  open_status entry = X_STATUS_SUCCESS ->
  can_map entry = false ->
  (forall dest_name, open_wb H t dest_name = true) ->
  0 < size entry < 2 ^ 64 ->
  ReadSync H entry 0 write_buffer_size = 0 ->
  forall fuel,
    ExtractContentFile H fuel entry base_path progress extract_to_root t
    = None.
Proof.
  intros Hdir Hopen Hmap Hwb Hsize Hread fuel.
  unfold ExtractContentFile. rewrite Hdir, Hopen, Hmap, Hwb.
  change (X_STATUS_SUCCESS =? X_STATUS_SUCCESS) with true. cbn [negb].
  rewrite copy_sync_never_returns; [reflexivity | lia | lia | assumption].
Qed.

Lemma copy_sync_full_reads (H : Host) (entry : Entry) (dest_name : string) (total : Z) :
  0 <= total < 2 ^ 64 ->
  (forall offset, 0 <= offset < total ->
     ReadSync H entry offset write_buffer_size
     = Z.min write_buffer_size (total - offset)) ->
  forall n fuel remaining_size offset progress t,
    (n < fuel)%nat ->
    0 <= remaining_size <= Z.of_nat n * write_buffer_size ->
    0 <= offset ->
    offset + remaining_size = total ->
    exists progress' t',
      copy_sync H fuel entry dest_name remaining_size offset progress t
      = Some (progress', t')
      /\ u64 progress' = u64 (progress + remaining_size)
      /\ bytes_written t' = bytes_written t + remaining_size.
Proof.
  intros Htotal Hread.
  induction n as [| n IH];
    intros fuel remaining_size offset progress t Hfuel Hrem Hoff Hsum;
    (destruct fuel as [| fuel]; [lia |]); cbn [copy_sync].
  - assert (remaining_size = 0) by lia. subst remaining_size.
    exists progress, t. rewrite !Z.add_0_r. now repeat split.
  - destruct (remaining_size >? 0) eqn:Hpos.
    2: { rewrite Z.gtb_ltb in Hpos. apply Z.ltb_ge in Hpos.
         assert (remaining_size = 0) by lia. subst remaining_size.
         exists progress, t. rewrite !Z.add_0_r. now repeat split. }
    apply Z.gtb_lt in Hpos.
    rewrite Hread by lia.
    replace (total - offset) with remaining_size by lia.
    set (bytes_read := Z.min write_buffer_size remaining_size).
    assert (Hbr : 0 < bytes_read <= remaining_size
                  /\ remaining_size - bytes_read
                     <= Z.of_nat n * write_buffer_size).
    { subst bytes_read. unfold write_buffer_size in *. lia. }
    replace (u64 (remaining_size - bytes_read))
      with (remaining_size - bytes_read)
      by (unfold u64; rewrite Z.mod_small; lia).
    replace (u64 (offset + bytes_read)) with (offset + bytes_read)
      by (unfold u64; rewrite Z.mod_small; lia).
    destruct (IH fuel (remaining_size - bytes_read) (offset + bytes_read)
                (u64 (progress + bytes_read))
                (t ++ [Fwrite dest_name bytes_read])%list)
      as (p' & t' & Hrun & Hp & Hb); [lia | lia | lia | lia |].
    exists p', t'. split; [exact Hrun |]. split.
    + rewrite Hp. unfold u64. rewrite Z.add_mod_idemp_l by lia.
      f_equal. ring.
    + rewrite Hb, bytes_written_snoc. simpl. ring.
Qed.

(** X19.  With a handle that reads in full (each [ReadSync] delivers the buffer's
    worth or what is left of the file), the copy of an entry that cannot be
    mapped returns 0, has written exactly [size()] bytes and has added
    [size()] to the progress counter (modulo 2^64). *)
Theorem ExtractContentFile_sync_copies_size (H : Host) (entry : Entry) (base_path : string) (progress : Z) (extract_to_root : bool) (t : Trace) (n fuel : nat) :
  truthy (Z.land (attributes entry) kFileAttributeDirectory) = false ->
  open_status entry = X_STATUS_SUCCESS ->
  can_map entry = false ->
  (forall dest_name, open_wb H t dest_name = true) ->
  0 <= size entry < 2 ^ 64 ->
  (forall offset, 0 <= offset < size entry ->
     ReadSync H entry offset write_buffer_size
     = Z.min write_buffer_size (size entry - offset)) ->
  size entry <= Z.of_nat n * write_buffer_size ->
  (n < fuel)%nat ->
  exists progress' t',
    ExtractContentFile H fuel entry base_path progress extract_to_root t
    = Some (0, progress', t')
    /\ u64 progress' = u64 (progress + size entry)
    /\ bytes_written t' = bytes_written t + size entry.
Proof.
  intros Hdir Hopen Hmap Hwb Hsize Hread Hn Hfuel.
  unfold ExtractContentFile. rewrite Hdir, Hopen, Hmap, Hwb.
  change (X_STATUS_SUCCESS =? X_STATUS_SUCCESS) with true. cbn [negb].
  set (dest := if extract_to_root then _ else _).
  destruct (copy_sync_full_reads H entry dest (size entry) Hsize Hread n fuel
              (size entry) 0 progress (t ++ [OpenWb dest])%list)
    as (p' & t' & Hrun & Hp & Hb); [assumption | lia | lia | lia |].
  rewrite Hrun. cbn [bind]. exists p', (t' ++ [Fclose dest])%list.
  split; [reflexivity |]. split; [exact Hp |].
  rewrite bytes_written_snoc, Hb, bytes_written_snoc. simpl. lia.
Qed.

Lemma ExtractContentFiles_loop_counts (H : Host) (inner : nat) (base_path : string) :
  forall fuel queue progress t seen s progress' t' seen',
    (forall e, In e (nodes_of queue) -> can_map e = false) ->
    ExtractContentFiles_loop H fuel inner queue base_path progress t seen
    = Some (s, progress', t', seen') ->
    u64 progress' = u64 (progress + (bytes_written t' - bytes_written t)).
Proof.
  induction fuel as [| fuel IH];
    intros queue progress t seen s progress' t' seen' Hmap; simpl;
    [discriminate |].
  destruct queue as [| e queue].
  - intros [= _ <- <- _]. f_equal. ring.
  - destruct (ExtractContentFile H inner e base_path progress false t)
      as [[[s1 p1] t1] |] eqn:He; cbn [bind]; [| discriminate].
    intros Hrun. apply IH in Hrun.
    + apply ExtractContentFile_sync_progress in He.
      * rewrite Hrun. unfold u64 in *.
        rewrite <- Z.add_mod_idemp_l, He, Z.add_mod_idemp_l by lia.
        f_equal. ring.
      * apply Hmap. unfold nodes_of. simpl.
        rewrite ExtractFacts.nodes_children. now left.
    + intros x Hx. apply Hmap.
      rewrite ExtractFacts.nodes_of_app in Hx.
      change (nodes_of (e :: queue)) with (nodes e ++ nodes_of queue)%list.
      rewrite ExtractFacts.nodes_children. simpl. right.
      apply in_app_iff. apply in_app_iff in Hx. tauto.
Qed.

(** X20.  Over a tree in which no entry can be mapped, the progress counter at
    the end of the walk has grown by the number of bytes the walk has
    written (modulo 2^64). *)
Theorem ExtractContentFiles_counts_unmapped (H : Host) (fuel inner : nat) (root : Entry) (base_path : string) (progress : Z) (t : Trace) (s : X_STATUS) (progress' : Z) (t' : Trace) (seen : list (Entry * X_STATUS)) :
  (forall e, In e (nodes root) -> can_map e = false) ->
  ExtractContentFiles H fuel inner root base_path progress t
  = Some (s, progress', t', seen) ->
  u64 progress' = u64 (progress + (bytes_written t' - bytes_written t)).
Proof.
  intros Hmap Hrun. unfold ExtractContentFiles in Hrun.
  apply ExtractContentFiles_loop_counts in Hrun; [exact Hrun |].
  intros e He. apply Hmap. unfold nodes_of in He. simpl in He.
  now rewrite app_nil_r in He.
Qed.

Lemma ExtractContentFile_failure_copies_nothing_witness :
  ExtractContentFile host 2 denied "out" 5 false []
  = Some (X_STATUS_ACCESS_DENIED, 5, [])
  /\ X_STATUS_ACCESS_DENIED <> 0
  /\ 5 = 5 /\ bytes_written [] = bytes_written [].
Proof.
  split; [reflexivity |]. split; [discriminate |].
  apply (ExtractContentFile_failure_copies_nothing host 2 denied "out" 5
           false [] X_STATUS_ACCESS_DENIED 5 [] eq_refl).
  discriminate.
Defined.

Lemma ExtractContentFile_sync_counts_witness :
  ExtractContentFile host 2 unmapped "out" 5 false []
  = Some (0, 4194309,
          [OpenWb "out/unmapped.bin"; Fwrite "out/unmapped.bin" 4194304;
           Fclose "out/unmapped.bin"])
  /\ u64 4194309
     = u64 (5 + (bytes_written
                   [OpenWb "out/unmapped.bin";
                    Fwrite "out/unmapped.bin" 4194304;
                    Fclose "out/unmapped.bin"]
                 - bytes_written [])).
Proof.
  split; [reflexivity |].
  exact (ExtractContentFile_sync_counts host 2 unmapped "out" 5 false []
           0 4194309 _ eq_refl eq_refl).
Defined.

Lemma ExtractContentFile_mapped_whole_buffers_only_witness :
  (ExtractContentFile host 2 mapped "out" 0 false []
   = Some (0, 0,
           [OpenWb "out/mapped.bin";
            FwriteMapped "out/mapped.bin" 0 write_buffer_size;
            Fclose "out/mapped.bin"])
   /\ Forall (in_view (map_size mapped))
             [FwriteMapped "out/mapped.bin" 0 write_buffer_size]
   /\ bytes_written [FwriteMapped "out/mapped.bin" 0 write_buffer_size]
      = map_size mapped)
  /\ map_size odd_mapped mod write_buffer_size <> 0
  /\ forall fuel, ExtractContentFile host fuel odd_mapped "out" 0 false []
                  = None.
Proof.
  destruct (ExtractContentFile_mapped_whole_buffers_only host mapped "out" 0
              false [] eq_refl eq_refl eq_refl (fun _ => eq_refl))
    as (Hwhole & _); [split; [discriminate | reflexivity] |].
  destruct (ExtractContentFile_mapped_whole_buffers_only host odd_mapped "out"
              0 false [] eq_refl eq_refl eq_refl (fun _ => eq_refl))
    as (_ & Hodd); [split; [discriminate | reflexivity] |].
  split; [apply (Hwhole 1%nat 2%nat eq_refl); [discriminate | apply le_n] |].
  split; [discriminate |].
  apply Hodd. discriminate.
Defined.

Lemma ExtractContentFile_empty_read_never_returns_witness :
  ReadSync silent_host unmapped 0 write_buffer_size = 0
  /\ forall fuel,
       ExtractContentFile silent_host fuel unmapped "out" 0 false [] = None.
Proof.
  split; [reflexivity |].
  apply (ExtractContentFile_empty_read_never_returns silent_host unmapped
           "out" 0 false [] eq_refl eq_refl eq_refl (fun _ => eq_refl));
    [split; reflexivity | reflexivity].
Defined.

Lemma ExtractContentFile_sync_copies_size_witness :
  exists progress' t',
    ExtractContentFile host 4 three_chunks "out" 0 false []
    = Some (0, progress', t')
    /\ u64 progress' = u64 (0 + size three_chunks)
    /\ bytes_written t' = bytes_written [] + size three_chunks.
Proof.
  apply (ExtractContentFile_sync_copies_size host three_chunks "out" 0 false
           [] 3 4 eq_refl eq_refl eq_refl (fun _ => eq_refl)).
  - split; [discriminate | reflexivity].
  - intros offset Hoff. cbn [ReadSync host size three_chunks] in *. lia.
  - discriminate.
  - apply le_n.
Defined.

Lemma ExtractContentFiles_counts_unmapped_witness :
  exists t' seen,
    ExtractContentFiles host 4 4 plain_tree "out" 0 []
    = Some (X_STATUS_SUCCESS, 14194304, t', seen)
    /\ u64 14194304 = u64 (0 + (bytes_written t' - bytes_written [])).
Proof.
  eexists. eexists. split; [vm_compute; reflexivity |].
  eapply (ExtractContentFiles_counts_unmapped host 4 4 plain_tree "out" 0 []);
    [| vm_compute; reflexivity].
  intros e He. simpl in He.
  destruct He as [<- | [<- | [<- | []]]]; reflexivity.
Defined.

End ExtractMore.
